(** * rank_code/deepspeed_rank_choice_v11_noe.py

    A shallow embedding of the ranking metric, the example constructor, the
    batch collator, the last-token locator, the evaluator's scoring tail and
    the checkpoint saver of the multiple-choice ranking trainer, with the
    properties of each; then the dataset as a sequence, the optimizer's
    parameter groups, the letter token ids and the bookkeeping of the
    training loop.

    Conventions.  Python [int] is [Z]; Python [float] is idealised as an exact
    rational ([Q], compared with [==]); [str] is [string]; a [list] is a
    [list]; an insertion-ordered [dict] is an association list.  A Python
    exception is the [Raise] branch of [result]. *)

From Stdlib Require Import String Ascii.
From Stdlib Require Import List ZArith QArith Lia Bool Arith.
From Stdlib Require Import Permutation Sorted.
From Stdlib Require Import Lqa DecimalString.
Import ListNotations.

Close Scope Q_scope.
Local Open Scope nat_scope.

(** ** Exceptions and results *)

Inductive exn : Type :=
| ZeroDivisionError
| AssertionError
| IndexError
| ValueError
| RuntimeError.

Inductive result (A : Type) : Type :=
| Ok (a : A)
| Raise (e : exn).

Arguments Ok {A} a.
Arguments Raise {A} e.

Definition bind {A B : Type} (m : result A) (f : A -> result B) : result B :=
  match m with
  | Ok a => f a
  | Raise e => Raise e
  end.

Notation "x <- m ;; k" := (bind m (fun x => k))
  (at level 61, m at next level, right associativity).

(** A list comprehension whose body may raise: the first exception aborts. *)
Fixpoint comprehension {A B : Type} (f : A -> result B) (l : list A)
  : result (list B) :=
  match l with
  | [] => Ok []
  | a :: l' =>
      b <- f a ;;
      bs <- comprehension f l' ;;
      Ok (b :: bs)
  end.

(** A numpy float: a finite value or not-a-number. *)
Inductive npfloat : Type :=
| Fin (q : Q)
| NaN.

(** ** Python list helpers *)

(** [l[:k]] for an arbitrary (possibly negative) stop index. *)
Definition slice_to {A : Type} (l : list A) (k : Z) : list A :=
  if (k <? 0)%Z
  then firstn (Z.to_nat (Z.of_nat (length l) + k)) l
  else firstn (Z.to_nat k) l.

(** [p in l] on integers. *)
Definition py_in (p : Z) (l : list Z) : bool := existsb (Z.eqb p) l.

(** Python's true division on floats. *)
Definition true_div (a b : Q) : result Q :=
  if Qeq_bool b 0 then Raise ZeroDivisionError else Ok (a / b)%Q.

(** ** apk and mapk *)

(** The [for i, p in enumerate(predicted)] loop of [apk]; [rest] is what is
    left of [predicted] from index [i] on. *)
Fixpoint apk_loop (actual predicted : list Z) (i : nat) (rest : list Z)
  (score num_hits : Q) : Q * Q :=
  match rest with
  | [] => (score, num_hits)
  | p :: rest' =>
      if py_in p actual && negb (py_in p (firstn i predicted))
      then
        let num_hits := (num_hits + 1)%Q in
        let score := (score + num_hits / (inject_Z (Z.of_nat i) + 1))%Q in
        apk_loop actual predicted (S i) rest' score num_hits
      else apk_loop actual predicted (S i) rest' score num_hits
  end.

Definition apk (actual predicted : list Z) (k : Z) : result Q :=
  match actual with
  | [] => Ok 0%Q
  | _ :: _ =>
      let predicted :=
        if (Z.of_nat (length predicted) >? k)%Z
        then slice_to predicted k
        else predicted in
      let '(score, _) := apk_loop actual predicted 0 predicted 0%Q 0%Q in
      true_div score (inject_Z (Z.min (Z.of_nat (length actual)) k))
  end.

Definition sumQ (xs : list Q) : Q := fold_right Qplus 0%Q xs.

(** [np.mean] of a list of floats; numpy answers nan for the empty list. *)
Definition np_mean (xs : list Q) : npfloat :=
  match xs with
  | [] => NaN
  | _ :: _ => Fin (sumQ xs / inject_Z (Z.of_nat (length xs)))%Q
  end.

Definition mapk (actual predicted : list (list Z)) (k : Z) : result npfloat :=
  scores <- comprehension (fun ap => apk (fst ap) (snd ap) k)
              (combine actual predicted) ;;
  Ok (np_mean scores).

(** ** Strings *)

Definition ascii_lowercase : string := "abcdefghijklmnopqrstuvwxyz".

Definition upper_char (c : ascii) : ascii :=
  let n := nat_of_ascii c in
  if (97 <=? n) && (n <=? 122) then ascii_of_nat (n - 32) else c.

Definition lower_char (c : ascii) : ascii :=
  let n := nat_of_ascii c in
  if (65 <=? n) && (n <=? 90) then ascii_of_nat (n + 32) else c.

Fixpoint str_map (f : ascii -> ascii) (s : string) : string :=
  match s with
  | EmptyString => EmptyString
  | String c s' => String (f c) (str_map f s')
  end.

Definition upper : string -> string := str_map upper_char.
Definition lower : string -> string := str_map lower_char.

(** [s[idx]] *)
Definition str_item (s : string) (idx : nat) : result ascii :=
  match String.get idx s with
  | Some c => Ok c
  | None => Raise IndexError
  end.

(** [s.replace(old, new)] for a non-empty [old]: scan left to right,
    replacing each occurrence and resuming after it. [skip] counts the
    characters of a matched occurrence still to be dropped. *)
Fixpoint replace_scan (old new : string) (skip : nat) (s : string) : string :=
  match s with
  | EmptyString => EmptyString
  | String c s' =>
      match skip with
      | S n => replace_scan old new n s'
      | O =>
          if String.prefix old s
          then (new ++ replace_scan old new (String.length old - 1) s')%string
          else String c (replace_scan old new 0 s')
      end
  end.

(** With an empty [old], Python puts [new] around every character. *)
Fixpoint replace_empty (new : string) (s : string) : string :=
  match s with
  | EmptyString => new
  | String c s' => (new ++ String c (replace_empty new s'))%string
  end.

Definition str_replace (s old new : string) : string :=
  match old with
  | EmptyString => replace_empty new s
  | String _ _ => replace_scan old new 0 s
  end.

(** [needle in hay] on strings. *)
Fixpoint str_in (needle hay : string) : bool :=
  String.prefix needle hay ||
  match hay with
  | EmptyString => false
  | String _ hay' => str_in needle hay'
  end.

Definition newline : string := String (ascii_of_nat 10) EmptyString.

(** ** random.shuffle

    The generator is a supply of raw draws; [randbelow n] reduces the next
    draw modulo [n].  Every run of the real generator over one call is such a
    supply, so what holds for all supplies holds for the program. *)

Definition rng : Type := list nat.

Definition randbelow (n : nat) (g : rng) : nat * rng :=
  match g with
  | [] => (0, [])
  | x :: g' => (x mod n, g')
  end.

Fixpoint set_item {A : Type} (l : list A) (i : nat) (v : A) : list A :=
  match l, i with
  | [], _ => []
  | _ :: l', O => v :: l'
  | a :: l', S i' => a :: set_item l' i' v
  end.

(** [x[i], x[j] = x[j], x[i]] *)
Definition swap_items {A : Type} (x : list A) (i j : nat) : list A :=
  match nth_error x i, nth_error x j with
  | Some xi, Some xj => set_item (set_item x i xj) j xi
  | _, _ => x
  end.

(** [for i in reversed(range(1, len(x))): j = randbelow(i + 1); swap] *)
Fixpoint shuffle_loop {A : Type} (i : nat) (x : list A) (g : rng)
  : list A * rng :=
  match i with
  | O => (x, g)
  | S i' =>
      let '(j, g') := randbelow (i + 1) g in
      shuffle_loop i' (swap_items x i j) g'
  end.

Definition shuffle {A : Type} (x : list A) (g : rng) : list A * rng :=
  shuffle_loop (length x - 1) x g.

(** ** qWenSFTDataset.create_example *)

Record Tokenizer : Type := {
  eos_token : string;
  eos_token_id : Z;
  tokenize : string -> list Z
}.

Record Row : Type := {
  prompt : string;
  answer_text : string;
  or_recall_texts : list string;
  data_id : Z
}.

Definition num : nat := 25.

Definition header : string := (newline ++ "Candidate distractor Analyses:")%string.

Definition instruction : string :=
  "###Answer###:The option with the correct distractor Analyse is".

Definition label_name : string :=
  (upper ascii_lowercase ++ lower (upper ascii_lowercase))%string.

(** Lines 290-301: the options presented for a row. *)
Definition presented_options (is_test : bool) (data : Row) (g : rng)
  : list string * rng :=
  let real_answer_text := answer_text data in
  let recall_texts_or := firstn 50 (or_recall_texts data) in
  if negb is_test then
    let recall_texts :=
      filter (fun text => negb (String.eqb text real_answer_text))
             recall_texts_or in
    let '(recall_texts, g) := shuffle recall_texts g in
    let input_texts := firstn (num - 1) recall_texts in
    let input_texts := input_texts ++ [real_answer_text] in
    shuffle input_texts g
  else (firstn num recall_texts_or, g).

(** Lines 305-308: the [for idx, text in enumerate(input_texts)] loop. *)
Fixpoint label_loop (real_answer_text : string) (idx : nat)
  (input_texts : list string) (label : Z) (label_str : string)
  : result (Z * string) :=
  match input_texts with
  | [] => Ok (label, label_str)
  | text :: rest =>
      let label := if String.eqb text real_answer_text
                   then Z.of_nat idx else label in
      c <- str_item label_name idx ;;
      label_loop real_answer_text (S idx) rest label
        (label_str ++ String c "." ++ text ++ newline)%string
  end.

Definition py_assert (b : bool) : result unit :=
  if b then Ok tt else Raise AssertionError.

(** Lines 302-311: label and prompt text for given options. *)
Definition label_and_text (is_test : bool) (data : Row)
  (input_texts : list string) : result (Z * string) :=
  r <- label_loop (answer_text data) 0 input_texts 999%Z header ;;
  let '(label, label_str) := r in
  _ <- (if negb is_test then py_assert (negb (label =? 999)%Z) else Ok tt) ;;
  Ok (label, (prompt data ++ label_str ++ instruction)%string).

Definition create_example (tokenizer : Tokenizer) (is_test : bool)
  (data : Row) (g : rng) : result (list Z * Z * Z) * rng :=
  let '(input_texts, g) := presented_options is_test data g in
  (r <- label_and_text is_test data input_texts ;;
   let '(label, text) := r in
   let text := str_replace text (eos_token tokenizer) "<end>" in
   let input_ids := tokenize tokenizer text in
   let input_ids := input_ids ++ [eos_token_id tokenizer] in
   Ok (input_ids, label, data_id data),
   g).

(** ** qWenSFTDataset.collate_fn *)

Record Instance : Type := {
  input_ids : list Z;
  labels : Z;
  data_ids : Z
}.

Record Batch : Type := {
  batch_input_ids : list (list Z);
  batch_labels : list Z;
  batch_data_ids : list Z
}.

Definition enumerate {A : Type} (l : list A) : list (nat * A) :=
  combine (seq 0 (length l)) l.

(** [max(iterable)]: a ValueError on an empty one. *)
Definition py_max (l : list nat) : result nat :=
  match l with
  | [] => Raise ValueError
  | x :: l' => Ok (fold_left Nat.max l' x)
  end.

(** The inner [padding]: a [batch_size] x [max_len] matrix of [val], each row
    overwritten on its first [seq_len] cells by the row's sequence. *)
Definition padding (inputs : list (list Z)) (val : Z)
  : result (list (list Z)) :=
  let batch_size := length inputs in
  max_len <- py_max (map (@length Z) inputs) ;;
  let res := repeat (repeat (1 * val)%Z max_len) batch_size in
  Ok (map (fun ir =>
             let '(i, res_data) := ir in
             let seq_len := length (nth i inputs []) in
             nth i inputs [] ++ skipn seq_len res_data)
          (enumerate res)).

Definition collate_fn (tokenizer : Tokenizer) (instances : list Instance)
  : result Batch :=
  let input_ids_l := map input_ids instances in
  let labels_l := map labels instances in
  let data_ids_l := map data_ids instances in
  padded <- padding input_ids_l (eos_token_id tokenizer) ;;
  Ok {| batch_input_ids := padded;
        batch_labels := labels_l;
        batch_data_ids := data_ids_l |}.

(** ** Locating the last real token *)

Definition torch_eq (row : list Z) (v : Z) : list bool :=
  map (fun t => (t =? v)%Z) row.

Definition to_int (row : list bool) : list Z :=
  map (fun b : bool => if b then 1%Z else 0%Z) row.

(** [argmax]: the index of the first maximal entry. *)
Fixpoint argmax_from (best_i : nat) (best_v : Z) (i : nat) (l : list Z) : nat :=
  match l with
  | [] => best_i
  | v :: l' =>
      if (v >? best_v)%Z
      then argmax_from i v (S i) l'
      else argmax_from best_i best_v (S i) l'
  end.

Definition argmax (l : list Z) : result nat :=
  match l with
  | [] => Raise IndexError
  | v :: l' => Ok (argmax_from 0 v 1 l')
  end.

(** One row of lines 657-658 (training loop). *)
Definition train_sequence_length (row : list Z) (pad_token_id : Z) : result Z :=
  first_pad <- argmax (to_int (torch_eq row pad_token_id)) ;;
  let sequence_length := (Z.of_nat first_pad - 1)%Z in
  Ok (sequence_length mod Z.of_nat (length row))%Z.

(** One row of lines 543-544 (evaluator). *)
Definition eval_sequence_length (row : list Z) (pad_token_id : Z) : result Z :=
  first_pad <- argmax (to_int (torch_eq row pad_token_id)) ;;
  let sequence_length := (Z.of_nat first_pad - 1)%Z in
  Ok (sequence_length mod Z.of_nat (length row))%Z.

(** ** evaluation_dist, from the gathered arrays on *)

(** Stable insertion into a list sorted by key. *)
Fixpoint insert_key (x : Q * nat) (l : list (Q * nat)) : list (Q * nat) :=
  match l with
  | [] => [x]
  | y :: l' =>
      if Qle_bool (fst x) (fst y) then x :: l else y :: insert_key x l'
  end.

(** [np.argsort]: the indices that sort the keys in ascending order.  numpy
    leaves the order of equal keys open; here they keep their positions. *)
Definition argsort (keys : list Q) : list nat :=
  map snd (fold_right insert_key [] (combine keys (seq 0 (length keys)))).

Record Prediction : Type := {
  df_data_id : Z;
  df_predict : list Z;
  df_label : Z
}.

(** [pd.DataFrame] of three columns: they must have one length. *)
Definition data_frame (data_ids : list Z) (predict : list (list Z))
  (labels : list Z) : result (list Prediction) :=
  if (length data_ids =? length predict) && (length predict =? length labels)
  then Ok (map (fun r => {| df_data_id := fst r;
                            df_predict := fst (snd r);
                            df_label := snd (snd r) |})
               (combine data_ids (combine predict labels)))
  else Raise ValueError.

(** [df.drop_duplicates('data_id')]: keep the first row of each id. *)
Fixpoint drop_duplicates_from (seen : list Z) (df : list Prediction)
  : list Prediction :=
  match df with
  | [] => []
  | r :: df' =>
      if py_in (df_data_id r) seen
      then drop_duplicates_from seen df'
      else r :: drop_duplicates_from (df_data_id r :: seen) df'
  end.

Definition drop_duplicates (df : list Prediction) : list Prediction :=
  drop_duplicates_from [] df.

Definition neg (x : npfloat) : npfloat :=
  match x with
  | Fin q => Fin (- q)%Q
  | NaN => NaN
  end.

(** Lines 571-588. *)
Definition evaluation_dist (predicts : list (list Q))
  (labels data_ids : list Z) : result npfloat :=
  let predicts := map (fun row => argsort (map Qopp row)) predicts in
  df <- data_frame data_ids (map (map Z.of_nat) predicts) labels ;;
  let df := drop_duplicates df in
  loss <- mapk (map (fun data => [data]) (map df_label df))
               (map df_predict df) 25 ;;
  Ok (neg loss).

(** ** save_model *)

Record Args : Type := {
  output_dir : string;
  global_rank : Z
}.

Fixpoint last_char (s : string) : option ascii :=
  match s with
  | EmptyString => None
  | String c EmptyString => Some c
  | String _ s' => last_char s'
  end.

(** [os.path.join(a, b)] on a POSIX system. *)
Definition path_join (a b : string) : string :=
  if String.prefix "/" b then b
  else match last_char a with
       | None => (a ++ b)%string
       | Some c => if Ascii.eqb c "/" then (a ++ b)%string
                   else (a ++ "/" ++ b)%string
       end.

(** What a call leaves behind, in order. *)
Inductive io_event (tensor : Type) : Type :=
| Printed (msg : string)
| TokenizerSaved (dir : string)
| MadeDirs (dir : string)
| TorchSaved (file : string) (d : list (string * tensor)).

Arguments Printed {tensor} msg.
Arguments TokenizerSaved {tensor} dir.
Arguments MadeDirs {tensor} dir.
Arguments TorchSaved {tensor} file d.

Definition print_rank_0 {tensor : Type} (msg : string) (rank : Z)
  : list (io_event tensor) :=
  if (rank <=? 0)%Z then [Printed msg] else [].

(** [d[k] = v] on an insertion-ordered dict. *)
Fixpoint dict_set {V : Type} (d : list (string * V)) (k : string) (v : V)
  : list (string * V) :=
  match d with
  | [] => [(k, v)]
  | (k', v') :: d' =>
      if String.eqb k' k then (k', v) :: d' else (k', v') :: dict_set d' k v
  end.

(** The [for k, v in save_dict.items()] loop. *)
Definition final_d {V : Type} (save_dict : list (string * V))
  : list (string * V) :=
  fold_left (fun acc kv =>
               if str_in "lora" (fst kv) || str_in "score" (fst kv)
               then dict_set acc (fst kv) (snd kv)
               else acc)
            save_dict [].

Definition save_model {tensor : Type} (args : Args)
  (state_dict : list (string * tensor)) (sub_fold : option string)
  : list (io_event tensor) :=
  match sub_fold with
  | None => []
  | Some sub_fold =>
      let output_dir := path_join (output_dir args) sub_fold in
      print_rank_0 "saving model ..." (global_rank args)
      ++ [TokenizerSaved output_dir]
      ++ (if (global_rank args =? 0)%Z
          then [MadeDirs output_dir;
                TorchSaved (path_join output_dir "adapter.bin")
                           (final_d state_dict)]
          else [])
      ++ print_rank_0 "saving success ..." (global_rank args)
  end.

(** ** Specification vocabulary *)

(** The 0-based position of the first occurrence of [x]. *)
Fixpoint index_of (x : Z) (l : list Z) : option nat :=
  match l with
  | [] => None
  | y :: l' => if (y =? x)%Z then Some 0 else option_map S (index_of x l')
  end.

(** Reciprocal rank of the single relevant item among the first [k]
    predictions: the closed form of average precision at [k] when exactly
    one item is relevant. *)
Definition reciprocal_rank (x : Z) (predicted : list Z) (k : nat) : Q :=
  match index_of x (firstn k predicted) with
  | Some r => (1 / (inject_Z (Z.of_nat r) + 1))%Q
  | None => 0%Q
  end.

(** Uppercase A to Z followed by lowercase a to z. *)
Definition alphabet : string :=
  "ABCDEFGHIJKLMNOPQRSTUVWXYZabcdefghijklmnopqrstuvwxyz".

(** The line of the option at position [idx]: its letter, a dot, the text. *)
Definition option_line (idx : nat) (text : string) : string :=
  match String.get idx alphabet with
  | Some c => (String c "." ++ text ++ newline)%string
  | None => EmptyString
  end.

Fixpoint option_lines (idx : nat) (texts : list string) : string :=
  match texts with
  | [] => EmptyString
  | text :: rest => (option_line idx text ++ option_lines (S idx) rest)%string
  end.

(** The position of the last option equal to [answer]. *)
Fixpoint last_index_of (answer : string) (texts : list string) : option nat :=
  match texts with
  | [] => None
  | text :: rest =>
      match last_index_of answer rest with
      | Some i => Some (S i)
      | None => if String.eqb text answer then Some 0 else None
      end
  end.

(** What is left of the pool once the answer is taken out. *)
Definition distractor_pool (data : Row) : list string :=
  filter (fun text => negb (String.eqb text (answer_text data)))
         (firstn 50 (or_recall_texts data)).

(** The prompt text for given options. *)
Definition rendered_text (data : Row) (texts : list string) : string :=
  (prompt data ++ (header ++ option_lines 0 texts) ++ instruction)%string.

(** A tokenizer to run examples with: one token per character. *)
Definition char_tokenizer : Tokenizer :=
  {| eos_token := "<eos>";
     eos_token_id := 0;
     tokenize := fun s => map (fun c => Z.of_nat (nat_of_ascii c))
                              (list_ascii_of_string s) |}.

(** [needle] occurs in [hay]. *)
Definition contains (needle hay : string) : Prop :=
  exists pre post, hay = (pre ++ needle ++ post)%string.

(** The name test of the checkpoint saver. *)
Definition adapter_name (k : string) : bool :=
  str_in "lora" k || str_in "score" k.

(** Scores do not increase along a ranking. *)
Definition descending (row : list Q) (ranking : list nat) : Prop :=
  StronglySorted (fun i j => (nth j row 0 <= nth i row 0)%Q) ranking.

(** Order of the (key, index) pairs that [argsort] sorts. *)
Definition key_le (a b : Q * nat) : Prop := (fst a <= fst b)%Q.

(** [i] stands before [j] in [ranking]. *)
Definition ranked_before (ranking : list nat) (i j : nat) : Prop :=
  exists a b, nth_error ranking a = Some i /\ nth_error ranking b = Some j /\ a < b.

(** ** qWenSFTDataset as a sequence *)

(** [l[idx]]: a negative index counts from the end; out of range raises. *)
Definition list_item {A : Type} (l : list A) (idx : Z) : result A :=
  let n := Z.of_nat (length l) in
  if (idx <? - n)%Z || (n <=? idx)%Z then Raise IndexError
  else
    match nth_error l (Z.to_nat (if (idx <? 0)%Z then idx + n else idx)%Z) with
    | Some a => Ok a
    | None => Raise IndexError
    end.

Record qWenSFTDataset : Type := {
  ds_tokenizer : Tokenizer;
  ds_max_prompt_len : Z;
  ds_max_completion_len : Z;
  ds_is_test : bool;
  ds_datas : list Row
}.

Definition __len__ (self : qWenSFTDataset) : nat := length (ds_datas self).

(** [torch.tensor(x, dtype=torch.long)]: a 64-bit signed integer; a value
    outside that range does not fit and the constructor raises. *)
Definition in_int64 (x : Z) : bool :=
  ((- 2 ^ 63 <=? x) && (x <? 2 ^ 63))%Z.

Definition torch_long (x : Z) : result Z :=
  if in_int64 x then Ok x else Raise RuntimeError.

Definition torch_long_list (l : list Z) : result (list Z) :=
  comprehension torch_long l.

Definition __getitem__ (self : qWenSFTDataset) (idx : Z) (g : rng)
  : result Instance * rng :=
  match list_item (ds_datas self) idx with
  | Raise e => (Raise e, g)
  | Ok data =>
      let '(r, g) := create_example (ds_tokenizer self) (ds_is_test self) data g in
      (ex <- r ;;
       let '(input_ids, labels, data_ids) := ex in
       input_ids <- torch_long_list input_ids ;;
       labels <- torch_long labels ;;
       data_ids <- torch_long data_ids ;;
       Ok {| input_ids := input_ids; labels := labels; data_ids := data_ids |},
       g)
  end.

(** ** Loading a checkpoint back (main, the lora_path branch) *)

(** [final_d = {}; for k, v in d.items(): final_d[k] = v] *)
Definition loaded_final_d {V : Type} (d : list (string * V)) : list (string * V) :=
  fold_left (fun acc kv => dict_set acc (fst kv) (snd kv)) d [].

(** ** get_optimizer_grouped_parameters *)

Record Param (T : Type) : Type := {
  param_data : T;
  requires_grad : bool
}.

Arguments param_data {T} p.
Arguments requires_grad {T} p.

Record ParamGroup (T : Type) : Type := {
  params : list (Param T);
  weight_decay : Q;
  lr : option Q
}.

Arguments params {T} p.
Arguments weight_decay {T} p.
Arguments lr {T} p.

(** [any(nd in n for nd in names)] *)
Definition any_in (names : list string) (n : string) : bool :=
  existsb (fun nd => str_in nd n) names.

Definition default_no_decay_name_list : list string :=
  ["bias"; "LayerNorm.weight"]%string.

Definition default_lora_name_list : list string :=
  ["lora_right_weight"; "lora_left_weight"]%string.

Definition get_optimizer_grouped_parameters {T : Type}
  (named_parameters : list (string * Param T)) (weight_decay lora_lr : Q)
  (no_decay_name_list lora_name_list : list string) : list (ParamGroup T) :=
  let decayed :=
    {| params :=
         map snd
           (filter (fun np =>
                      negb (any_in no_decay_name_list (fst np))
                      && requires_grad (snd np)
                      && negb (any_in lora_name_list (fst np)))
                   named_parameters);
       weight_decay := weight_decay;
       lr := None |} in
  let lora :=
    {| params :=
         map snd
           (filter (fun np =>
                      negb (any_in no_decay_name_list (fst np))
                      && requires_grad (snd np)
                      && any_in lora_name_list (fst np))
                   named_parameters);
       weight_decay := weight_decay;
       lr := Some lora_lr |} in
  let not_decayed :=
    {| params :=
         map snd
           (filter (fun np =>
                      any_in no_decay_name_list (fst np)
                      && requires_grad (snd np))
                   named_parameters);
       weight_decay := 0;
       lr := None |} in
  match params lora with
  | [] => [decayed; not_decayed]
  | _ :: _ => [decayed; lora; not_decayed]
  end.

(** ** The letter token ids (label_index) *)

(** [l[0]] *)
Definition first_item {A : Type} (l : list A) : result A :=
  match l with
  | [] => Raise IndexError
  | x :: _ => Ok x
  end.

(** [encode] stands for [tokenizer.encode(c, add_special_tokens=False)]. *)
Definition label_index (encode : string -> list Z) : result (list Z) :=
  ids <- comprehension
           (fun c => first_item (encode (String c EmptyString)))
           (list_ascii_of_string label_name) ;;
  Ok (firstn 25 ids).

(** ** The training loop's bookkeeping (main)

    The forward and backward passes and the evaluator's inference are not
    modelled: [loss_at] gives the loss of the batch at a global step and
    [eval_at] the value that the n-th call of [evaluation_dist] returns.
    What is modelled is what the loop itself decides: the counters, the best
    value, when it evaluates and what it saves.  Console output is left out. *)

Record TrainArgs : Type := {
  num_train_epochs : Z;
  gradient_accumulation_steps : Z;
  save_batch_steps : Z;
  save_per_epoch : Z
}.

Inductive loop_event : Type :=
| Stepped (step : Z)
| Evaluated (loss_mean : npfloat)
| EvaluatedLast (loss_mean : npfloat)
| SavedModel (sub_fold : string).

Record LoopState : Type := {
  global_step : Z;
  total_loss : Q;
  best_val_loss : Q;
  no_improve_epoch : Z;
  evaluations : nat;
  events : list loop_event
}.

(** [a % b] on integers. *)
Definition py_mod (a b : Z) : result Z :=
  if (b =? 0)%Z then Raise ZeroDivisionError else Ok (a mod b)%Z.

(** [x < best] for a value that may be nan. *)
Definition float_lt (x : npfloat) (best : Q) : bool :=
  match x with
  | Fin q => negb (Qle_bool best q)
  | NaN => false
  end.

Definition initial_state : LoopState :=
  {| global_step := -1;
     total_loss := 0;
     best_val_loss := 1000;
     no_improve_epoch := 0;
     evaluations := 0;
     events := [] |}.

(** The body of [for step, batch in enumerate(train_dataloader)]. *)
Definition batch_step (args : TrainArgs) (loss_at : Z -> Q)
  (eval_at : nat -> npfloat) (st : LoopState) : result LoopState :=
  let global_step := (global_step st + 1)%Z in
  let loss := loss_at global_step in
  let events := events st ++ [Stepped global_step] in
  let total_loss := (total_loss st + loss)%Q in
  r <- py_mod (global_step + 1) (gradient_accumulation_steps args) ;;
  let total_loss := if (r =? 0)%Z then 0%Q else total_loss in
  if negb (save_batch_steps args =? 0)%Z
     && ((global_step + 1) mod save_batch_steps args =? 0)%Z
  then
    let loss_mean := eval_at (evaluations st) in
    let loss_mean_e := loss_mean in
    let events := events ++ [Evaluated loss_mean] in
    if float_lt loss_mean_e (best_val_loss st)
    then
      Ok {| global_step := global_step;
            total_loss := total_loss;
            best_val_loss := match loss_mean_e with
                             | Fin q => q
                             | NaN => best_val_loss st
                             end;
            no_improve_epoch := 0;
            evaluations := S (evaluations st);
            events := events ++ [SavedModel "best_val_loss_model"] |}
    else
      Ok {| global_step := global_step;
            total_loss := total_loss;
            best_val_loss := best_val_loss st;
            no_improve_epoch := no_improve_epoch st + 1;
            evaluations := S (evaluations st);
            events := events |}
  else
    Ok {| global_step := global_step;
          total_loss := total_loss;
          best_val_loss := best_val_loss st;
          no_improve_epoch := no_improve_epoch st;
          evaluations := evaluations st;
          events := events |}.

Fixpoint batch_loop (n_batches : nat) (args : TrainArgs) (loss_at : Z -> Q)
  (eval_at : nat -> npfloat) (st : LoopState) : result LoopState :=
  match n_batches with
  | O => Ok st
  | S n' =>
      st' <- batch_step args loss_at eval_at st ;;
      batch_loop n' args loss_at eval_at st'
  end.

(** [f"epoch_{epoch}_model"] *)
Definition epoch_name (epoch : nat) : string :=
  ("epoch_" ++ NilEmpty.string_of_uint (Nat.to_uint epoch) ++ "_model")%string.

Definition add_events (st : LoopState) (evs : list loop_event) : LoopState :=
  {| global_step := global_step st;
     total_loss := total_loss st;
     best_val_loss := best_val_loss st;
     no_improve_epoch := no_improve_epoch st;
     evaluations := evaluations st;
     events := events st ++ evs |}.

(** What an epoch does after its batches. *)
Definition epoch_end (args : TrainArgs) (eval_at : nat -> npfloat)
  (epoch : nat) (st : LoopState) : LoopState :=
  let st :=
    if (save_per_epoch args =? 1)%Z
    then add_events st [SavedModel (epoch_name epoch)]
    else st in
  if (Z.of_nat epoch =? num_train_epochs args - 1)%Z
  then
    let loss_mean := eval_at (evaluations st) in
    {| global_step := global_step st;
       total_loss := total_loss st;
       best_val_loss := best_val_loss st;
       no_improve_epoch := no_improve_epoch st;
       evaluations := S (evaluations st);
       events := events st ++ [EvaluatedLast loss_mean;
                               SavedModel (epoch_name epoch)] |}
  else st.

(** [for epoch in range(...)], from [epoch] on, [remaining] epochs to go. *)
Fixpoint epoch_loop (remaining epoch n_batches : nat) (args : TrainArgs)
  (loss_at : Z -> Q) (eval_at : nat -> npfloat) (st : LoopState)
  : result LoopState :=
  match remaining with
  | O => Ok st
  | S remaining' =>
      st' <- batch_loop n_batches args loss_at eval_at st ;;
      epoch_loop remaining' (S epoch) n_batches args loss_at eval_at
        (epoch_end args eval_at epoch st')
  end.

Definition training_loop (args : TrainArgs) (n_batches : nat)
  (loss_at : Z -> Q) (eval_at : nat -> npfloat) : result LoopState :=
  epoch_loop (Z.to_nat (num_train_epochs args)) 0 n_batches args loss_at eval_at
    initial_state.

(** The results of the evaluations made inside the batch loop, in order. *)
Fixpoint evaluated (evs : list loop_event) : list npfloat :=
  match evs with
  | [] => []
  | Evaluated v :: evs' => v :: evaluated evs'
  | _ :: evs' => evaluated evs'
  end.

(** What the loop keeps about the best value. *)
Definition best_so_far (st : LoopState) : Prop :=
  (best_val_loss st <= 1000)%Q /\
  (forall q, In (Fin q) (evaluated (events st)) -> (best_val_loss st <= q)%Q) /\
  (best_val_loss st = 1000%Q \/
   In (Fin (best_val_loss st)) (evaluated (events st))) /\
  (In (SavedModel "best_val_loss_model") (events st)
   <-> (best_val_loss st < 1000)%Q).

(** * Properties *)

Example apk_hit_third : apk [4%Z] [1; 2; 4; 5]%Z 25 = Ok (0 + (0 + 1) / (2 + 1) / 1)%Q.
Proof. vm_compute. reflexivity. Qed.

Example label_name_value :
  label_name = "ABCDEFGHIJKLMNOPQRSTUVWXYZabcdefghijklmnopqrstuvwxyz"%string.
Proof. reflexivity. Qed.

Example replace_demo :
  str_replace "a<|e|>b<|e|><|e|" "<|e|>" "<end>" = "a<end>b<end><|e|"%string.
Proof. reflexivity. Qed.

Example shuffle_demo : fst (shuffle [1;2;3;4] [7;1;0]) = [3;1;2;4].
Proof. vm_compute. reflexivity. Qed.

Example argsort_demo : argsort [3; 1; 2; 1]%Q = [1; 3; 2; 0].
Proof. vm_compute. reflexivity. Qed.

Example path_join_demo : path_join "out" "best" = "out/best"%string.
Proof. reflexivity. Qed.

Example padding_demo : padding [[1; 2; 3]; [4]]%Z 9%Z = Ok [[1; 2; 3]; [4; 9; 9]]%Z.
Proof. reflexivity. Qed.

Example seq_len_demo : eval_sequence_length [5; 6; 7; 2; 2]%Z 2%Z = Ok 2%Z.
Proof. reflexivity. Qed.

(** ** The result monad *)

Lemma comprehension_ok {A B : Type} (f : A -> result B) (l : list A) :
  (forall a, In a l -> exists b, f a = Ok b) ->
  exists bs, comprehension f l = Ok bs /\ Forall2 (fun a b => f a = Ok b) l bs.
Proof.
  induction l as [|a l IH]; intros Hall.
  - exists []. split; [reflexivity | constructor].
  - destruct (Hall a (or_introl eq_refl)) as [b Hb].
    destruct IH as [bs [Hbs HF]].
    { intros a' Ha'. apply Hall. now right. }
    exists (b :: bs). split.
    + simpl. rewrite Hb. simpl. rewrite Hbs. reflexivity.
    + constructor; assumption.
Qed.

(** ** Average precision with one relevant item *)

Lemma py_in_In (p : Z) (l : list Z) : py_in p l = true <-> In p l.
Proof.
  unfold py_in. rewrite existsb_exists. split.
  - intros [y [Hy He]]. apply Z.eqb_eq in He. now subst.
  - intros H. exists p. split; [assumption | apply Z.eqb_refl].
Qed.

Lemma py_in_not_In (p : Z) (l : list Z) : py_in p l = false <-> ~ In p l.
Proof.
  rewrite <- py_in_In. destruct (py_in p l); split; intros; congruence.
Qed.

Lemma index_of_None (x : Z) (l : list Z) : index_of x l = None <-> ~ In x l.
Proof.
  induction l as [|y l IH]; simpl.
  - tauto.
  - destruct (Z.eqb_spec y x) as [->|Hne].
    + split; [discriminate | intros H; exfalso; apply H; now left].
    + destruct (index_of x l); simpl.
      * split; [discriminate|]. intros H. exfalso.
        assert (Hn : ~ In x l) by tauto.
        apply IH in Hn. discriminate.
      * split; [|reflexivity]. intros _ [H|H]; [congruence | tauto].
Qed.

Lemma index_of_first (x : Z) (l : list Z) (r : nat) :
  nth_error l r = Some x -> ~ In x (firstn r l) -> index_of x l = Some r.
Proof.
  revert r. induction l as [|y l IH]; intros [|r] Hn Hf; simpl in *; try discriminate.
  - injection Hn as ->. now rewrite Z.eqb_refl.
  - destruct (Z.eqb_spec y x) as [->|Hne]; [tauto|].
    rewrite (IH r); [reflexivity | assumption | tauto].
Qed.

Lemma NoDup_nth_error_first (x : Z) (l : list Z) (r : nat) :
  NoDup l -> nth_error l r = Some x -> ~ In x (firstn r l).
Proof.
  revert r. induction l as [|y l IH]; intros [|r] Hnd Hn; simpl in *; try tauto.
  inversion Hnd as [|? ? Hy Hnd']; subst. intros [->|Hin].
  - apply Hy. eapply nth_error_In; eassumption.
  - eapply IH; eassumption.
Qed.

Lemma index_of_firstn (x : Z) (l : list Z) (r n : nat) :
  index_of x l = Some r -> r < n -> index_of x (firstn n l) = Some r.
Proof.
  revert r n. induction l as [|y l IH]; intros r [|n] Hi Hlt; simpl in *;
    try discriminate; try lia.
  destruct (y =? x)%Z; [assumption|].
  destruct (index_of x l) as [r'|] eqn:E; simpl in Hi; [|discriminate].
  injection Hi as <-. rewrite (IH r' n eq_refl); [reflexivity | lia].
Qed.

Lemma firstn_In_mono {A : Type} (x : A) (l : list A) (i j : nat) :
  i <= j -> In x (firstn i l) -> In x (firstn j l).
Proof.
  revert i j. induction l as [|y l IH]; intros [|i] [|j] Hle Hin; simpl in *;
    try tauto; try lia.
  destruct Hin as [->|Hin]; [now left | right].
  apply (IH i j); [lia | assumption].
Qed.

(** Once the relevant item lies among the predictions already visited, the
    loop changes nothing any more. *)
Lemma apk_loop_seen (x : Z) (predicted rest : list Z) (i : nat) (s h : Q) :
  In x (firstn i predicted) ->
  apk_loop [x] predicted i rest s h = (s, h).
Proof.
  revert i s h. induction rest as [|p rest IH]; intros i s h Hin; simpl.
  - reflexivity.
  - assert (Hnext : In x (firstn (S i) predicted))
      by (apply (firstn_In_mono x predicted i (S i)); [lia | assumption]).
    destruct (Z.eqb_spec p x) as [->|Hne].
    + apply py_in_In in Hin. rewrite Hin. simpl. now apply IH.
    + simpl. now apply IH.
Qed.

Lemma apk_loop_single (x : Z) (predicted : list Z) :
  forall rest done s h,
    predicted = done ++ rest ->
    ~ In x done ->
    apk_loop [x] predicted (length done) rest s h =
    match index_of x rest with
    | Some r =>
        ((s + (h + 1) / (inject_Z (Z.of_nat (length done + r)) + 1))%Q,
         (h + 1)%Q)
    | None => (s, h)
    end.
Proof.
  induction rest as [|p rest IH]; intros done s h Hsplit Hdone; simpl.
  - reflexivity.
  - destruct (Z.eqb_spec p x) as [->|Hne].
    + assert (Hpre : firstn (length done) predicted = done).
      { rewrite Hsplit. rewrite firstn_app, Nat.sub_diag, firstn_all. simpl.
        apply app_nil_r. }
      rewrite Hpre. apply py_in_not_In in Hdone. rewrite Hdone.
      simpl. rewrite Nat.add_0_r.
      apply apk_loop_seen.
      rewrite Hsplit. replace (S (length done)) with (length (done ++ [x])).
      * replace (done ++ x :: rest) with ((done ++ [x]) ++ rest)
          by (rewrite <- app_assoc; reflexivity).
        rewrite firstn_app, Nat.sub_diag, firstn_all. simpl.
        rewrite app_nil_r. apply in_or_app. right. now left.
      * rewrite length_app. simpl. lia.
    + simpl. specialize (IH (done ++ [p]) s h).
      rewrite length_app in IH. simpl in IH.
      replace (length done + 1) with (S (length done)) in IH by lia.
      rewrite IH.
      * destruct (index_of x rest) as [r|]; simpl; [|reflexivity].
        replace (length done + S r) with (S (length done + r)) by lia.
        reflexivity.
      * rewrite Hsplit, <- app_assoc. reflexivity.
      * intros Hin. apply in_app_or in Hin. destruct Hin as [Hin|[Hin|[]]];
          [tauto | congruence].
Qed.

Lemma Qeq_bool_inject_Z_nonzero (z : Z) :
  z <> 0%Z -> Qeq_bool (inject_Z z) 0 = false.
Proof.
  intros Hz. destruct (Qeq_bool (inject_Z z) 0) eqn:E; [|reflexivity].
  apply Qeq_bool_eq in E. unfold Qeq in E. simpl in E. lia.
Qed.

(** The cut of [apk] at a positive [k] is the first [k] predictions. *)
Lemma apk_cut (predicted : list Z) (k : Z) :
  (1 <= k)%Z ->
  (if (Z.of_nat (length predicted) >? k)%Z
   then slice_to predicted k else predicted)
  = firstn (Z.to_nat k) predicted.
Proof.
  intros Hk. destruct (Z.gtb_spec (Z.of_nat (length predicted)) k) as [Hgt|Hle].
  - unfold slice_to. destruct (Z.ltb_spec k 0); [lia | reflexivity].
  - symmetry. apply firstn_all2. lia.
Qed.

Lemma apk_single (x : Z) (predicted : list Z) (k : Z) :
  (1 <= k)%Z ->
  exists s, apk [x] predicted k = Ok s /\
            (s == reciprocal_rank x predicted (Z.to_nat k))%Q.
Proof.
  intros Hk. unfold apk. rewrite (apk_cut predicted k Hk).
  set (cut := firstn (Z.to_nat k) predicted).
  assert (Hmin : Z.min (Z.of_nat (length [x])) k = 1%Z) by (simpl; lia).
  rewrite Hmin.
  pose proof (apk_loop_single x cut cut [] 0%Q 0%Q eq_refl (fun H => H)) as Hloop.
  simpl length in Hloop. rewrite Hloop.
  unfold reciprocal_rank. fold cut.
  destruct (index_of x cut) as [r|]; unfold true_div;
    change (Qeq_bool (inject_Z 1) 0) with false; cbv iota.
  - eexists. split; [reflexivity|]. simpl plus.
    unfold Qdiv. change (/ inject_Z 1)%Q with 1%Q. ring.
  - eexists. split; [reflexivity|]. reflexivity.
Qed.

Lemma apk_total (actual predicted : list Z) (k : Z) :
  k <> 0%Z -> exists s, apk actual predicted k = Ok s.
Proof.
  intros Hk. unfold apk. destruct actual as [|a actual].
  - now exists 0%Q.
  - destruct (apk_loop _ _ _ _ _ _) as [score hits]. unfold true_div.
    rewrite Qeq_bool_inject_Z_nonzero.
    + eexists. reflexivity.
    + simpl length. lia.
Qed.

Lemma sumQ_mean_nonzero (xs : list Q) :
  xs <> [] -> ~ (inject_Z (Z.of_nat (length xs)) == 0)%Q.
Proof.
  intros Hne Heq. destruct xs; [congruence|].
  unfold Qeq in Heq. simpl in Heq. lia.
Qed.

(** C1 (as amended): for every cutoff [k >= 1], [mapk] is the arithmetic mean
    of [apk] over the zipped pairs (not-a-number when there is no pair), and
    for a single relevant item [x] and duplicate-free predictions [p],
    [apk [x] p k] is [1/(r+1)] when [x] stands at 0-based position [r < k] of
    [p], and [0] when [x] is not among the first [k] predictions. *)
Theorem apk_mapk_closed_form (k : Z) (Hk : (1 <= k)%Z) :
  (forall actual predicted,
      exists scores,
        Forall2 (fun ap s => apk (fst ap) (snd ap) k = Ok s)
                (combine actual predicted) scores /\
        match scores with
        | [] => mapk actual predicted k = Ok NaN
        | _ :: _ =>
            exists m, mapk actual predicted k = Ok (Fin m) /\
                      (m * inject_Z (Z.of_nat (length scores)) == sumQ scores)%Q
        end) /\
  (forall x p r,
      NoDup p -> nth_error p r = Some x -> (Z.of_nat r < k)%Z ->
      exists s, apk [x] p k = Ok s /\
                (s == 1 / (inject_Z (Z.of_nat r) + 1))%Q) /\
  (forall x p,
      NoDup p -> ~ In x (firstn (Z.to_nat k) p) ->
      exists s, apk [x] p k = Ok s /\ (s == 0)%Q).
Proof.
  split; [|split].
  - intros actual predicted.
    destruct (comprehension_ok (fun ap => apk (fst ap) (snd ap) k)
                (combine actual predicted)) as [scores [Hc HF]].
    { intros ap _. apply apk_total. lia. }
    exists scores. split; [assumption|].
    unfold mapk. rewrite Hc. simpl.
    destruct scores as [|s scores]; [reflexivity|].
    eexists. split; [reflexivity|].
    rewrite Qmult_comm. apply Qmult_div_r.
    apply sumQ_mean_nonzero. discriminate.
  - intros x p r Hnd Hnth Hr.
    destruct (apk_single x p k Hk) as [s [Hs Heq]].
    exists s. split; [assumption|].
    rewrite Heq. unfold reciprocal_rank.
    rewrite (index_of_firstn x p r (Z.to_nat k)); [reflexivity | | lia].
    apply index_of_first; [assumption|].
    now apply NoDup_nth_error_first.
  - intros x p _ Hout.
    destruct (apk_single x p k Hk) as [s [Hs Heq]].
    exists s. split; [assumption|].
    rewrite Heq. unfold reciprocal_rank.
    apply index_of_None in Hout. now rewrite Hout.
Qed.

(** At the default cutoff 25, an item ranked third scores one third. *)
Lemma apk_mapk_closed_form_witness :
  (1 <= 25)%Z /\
  exists s, apk [4%Z] [1; 2; 4; 5]%Z 25 = Ok s /\ (s == 1 / (inject_Z 2 + 1))%Q.
Proof.
  assert (H : (1 <= 25)%Z) by (vm_compute; discriminate).
  split; [exact H|].
  apply (proj1 (proj2 (apk_mapk_closed_form 25 H)) 4%Z [1; 2; 4; 5]%Z 2).
  - repeat constructor; simpl; intuition discriminate.
  - reflexivity.
  - reflexivity.
Defined.

(** C1, as stated, fails at the cutoff 0: nothing occurs among the first 0
    predictions, yet [apk] divides by [min(1, 0)] and raises. *)
Lemma apk_cutoff_zero_raises :
  NoDup [3%Z] /\ ~ In 7%Z (firstn (Z.to_nat 0) [3%Z]) /\
  apk [7%Z] [3%Z] 0 = Raise ZeroDivisionError /\
  mapk [[7%Z]] [[3%Z]] 0 = Raise ZeroDivisionError.
Proof.
  split; [|split; [|split]].
  - repeat constructor. simpl. tauto.
  - simpl. tauto.
  - reflexivity.
  - reflexivity.
Qed.

(** ** random.shuffle permutes *)

Lemma set_item_perm {A : Type} (l : list A) (i : nat) (a v : A) :
  nth_error l i = Some a -> Permutation (v :: l) (a :: set_item l i v).
Proof.
  revert i. induction l as [|b l IH]; intros [|i] Hn; simpl in *; try discriminate.
  - injection Hn as ->. apply perm_swap.
  - apply IH with (i := i) in Hn.
    transitivity (b :: v :: l); [apply perm_swap|].
    transitivity (b :: a :: set_item l i v); [now apply perm_skip|].
    apply perm_swap.
Qed.

Lemma nth_error_set_item_same {A : Type} (l : list A) (i : nat) (a v : A) :
  nth_error l i = Some a -> nth_error (set_item l i v) i = Some v.
Proof.
  revert i. induction l as [|b l IH]; intros [|i] Hn; simpl in *;
    try discriminate; [reflexivity | now apply IH].
Qed.

Lemma nth_error_set_item_other {A : Type} (l : list A) (i j : nat) (v : A) :
  i <> j -> nth_error (set_item l i v) j = nth_error l j.
Proof.
  revert i j. induction l as [|b l IH]; intros [|i] [|j] Hij; simpl;
    try reflexivity; try congruence.
  apply IH. congruence.
Qed.

Lemma swap_items_perm {A : Type} (x : list A) (i j : nat) :
  Permutation (swap_items x i j) x.
Proof.
  unfold swap_items.
  destruct (nth_error x i) as [xi|] eqn:Ei; [|apply Permutation_refl].
  destruct (nth_error x j) as [xj|] eqn:Ej; [|apply Permutation_refl].
  apply (Permutation_cons_inv (a := xj)).
  transitivity (xi :: set_item x i xj).
  - symmetry. apply set_item_perm.
    destruct (Nat.eq_dec i j) as [->|Hij].
    + apply (nth_error_set_item_same x j xi xj). congruence.
    + rewrite nth_error_set_item_other; assumption.
  - symmetry. now apply set_item_perm.
Qed.

Lemma shuffle_loop_perm {A : Type} (i : nat) :
  forall (x : list A) (g : rng), Permutation (fst (shuffle_loop i x g)) x.
Proof.
  induction i as [|i IH]; intros x g.
  - apply Permutation_refl.
  - cbn [shuffle_loop]. destruct (randbelow (S i + 1) g) as [j g'].
    transitivity (swap_items x (S i) j); [apply IH | apply swap_items_perm].
Qed.

Lemma shuffle_perm {A : Type} (x : list A) (g : rng) :
  Permutation (fst (shuffle x g)) x.
Proof. apply shuffle_loop_perm. Qed.

(** ** The presented options *)

Lemma pool_excludes_answer (data : Row) :
  ~ In (answer_text data) (distractor_pool data).
Proof.
  unfold distractor_pool. intros Hin. apply filter_In in Hin.
  destruct Hin as [_ Hne]. rewrite String.eqb_refl in Hne. discriminate.
Qed.

(** The training branch, opened up: the two shuffles and what lies between. *)
Lemma presented_options_training (data : Row) (g : rng) :
  exists shuffled g1,
    shuffle (distractor_pool data) g = (shuffled, g1) /\
    presented_options false data g =
    shuffle (firstn 24 shuffled ++ [answer_text data]) g1.
Proof.
  unfold presented_options. cbn [negb]. fold (distractor_pool data).
  destruct (shuffle (distractor_pool data) g) as [shuffled g1].
  exists shuffled, g1. split; reflexivity.
Qed.

Lemma firstn_subset_not_In {A : Type} (x : A) (n : nat) (l : list A) :
  ~ In x l -> ~ In x (firstn n l).
Proof.
  intros Hn Hin. apply Hn.
  rewrite <- (firstn_skipn n l). apply in_or_app. now left.
Qed.

Lemma count_occ_training (data : Row) (g : rng) :
  count_occ string_dec (fst (presented_options false data g))
            (answer_text data) = 1.
Proof.
  destruct (presented_options_training data g) as [shuffled [g1 [Hs Hp]]].
  rewrite Hp.
  rewrite (proj1 (Permutation_count_occ string_dec _ _) (shuffle_perm _ g1)).
  assert (Hout : ~ In (answer_text data) (firstn 24 shuffled)).
  { apply firstn_subset_not_In. intros Hin.
    apply (pool_excludes_answer data).
    pose proof (shuffle_perm (distractor_pool data) g) as Hperm.
    rewrite Hs in Hperm. simpl in Hperm.
    eapply Permutation_in; eassumption. }
  apply (count_occ_not_In string_dec) in Hout.
  rewrite count_occ_app, Hout. cbn [count_occ].
  destruct (string_dec (answer_text data) (answer_text data)); [|congruence].
  reflexivity.
Qed.

Lemma length_training (data : Row) (g : rng) :
  length (fst (presented_options false data g)) =
  Nat.min 24 (length (distractor_pool data)) + 1.
Proof.
  destruct (presented_options_training data g) as [shuffled [g1 [Hs Hp]]].
  rewrite Hp. rewrite (Permutation_length (shuffle_perm _ g1)).
  rewrite length_app, length_firstn. simpl.
  pose proof (shuffle_perm (distractor_pool data) g) as Hperm.
  rewrite Hs in Hperm. simpl in Hperm.
  now rewrite (Permutation_length Hperm).
Qed.

Lemma presented_options_test (data : Row) (g : rng) :
  presented_options true data g = (firstn 25 (or_recall_texts data), g).
Proof.
  unfold presented_options. cbn [negb]. unfold num.
  rewrite firstn_firstn. reflexivity.
Qed.

Lemma length_presented (is_test : bool) (data : Row) (g : rng) :
  length (fst (presented_options is_test data g)) <= 25.
Proof.
  destruct is_test.
  - rewrite presented_options_test. cbn [fst]. rewrite length_firstn. lia.
  - rewrite length_training. lia.
Qed.

(** C2 (as amended): in training the options are a shuffle of (the first 24
    of a shuffle of the candidates among the first 50 that differ from the
    answer) followed by the answer, so there are [min 24 pool + 1] of them,
    25 as soon as the pool holds 24, and the answer is exactly one of them;
    at test time the options are the first 25 candidates in their order. *)
Theorem presented_options_spec (data : Row) (g : rng) :
  (exists shuffled,
      Permutation shuffled (distractor_pool data) /\
      Permutation (fst (presented_options false data g))
                  (firstn 24 shuffled ++ [answer_text data]) /\
      length (fst (presented_options false data g)) =
      Nat.min 24 (length (distractor_pool data)) + 1 /\
      (24 <= length (distractor_pool data) ->
       length (fst (presented_options false data g)) = 25) /\
      count_occ string_dec (fst (presented_options false data g))
                (answer_text data) = 1) /\
  presented_options true data g = (firstn 25 (or_recall_texts data), g).
Proof.
  split; [|apply presented_options_test].
  destruct (presented_options_training data g) as [shuffled [g1 [Hs Hp]]].
  exists shuffled. split; [|split; [|split; [|split]]].
  - pose proof (shuffle_perm (distractor_pool data) g) as Hperm.
    now rewrite Hs in Hperm.
  - rewrite Hp. apply shuffle_perm.
  - apply length_training.
  - intros Hpool. rewrite length_training. lia.
  - apply count_occ_training.
Qed.

(** A row with two candidates only. *)
Lemma presented_options_spec_witness :
  exists shuffled,
    Permutation shuffled ["a"; "b"]%string /\
    Permutation
      (fst (presented_options false
              {| prompt := "Q"; answer_text := "c";
                 or_recall_texts := ["a"; "b"; "c"]%string; data_id := 1 |}
              [5; 3; 1]))
      (firstn 24 shuffled ++ ["c"%string]).
Proof.
  destruct (proj1 (presented_options_spec
                     {| prompt := "Q"; answer_text := "c";
                        or_recall_texts := ["a"; "b"; "c"]%string;
                        data_id := 1 |} [5; 3; 1]))
    as [shuffled [H1 [H2 _]]].
  exists shuffled. split; assumption.
Defined.

(** C2, as stated, fails on a row with fewer than 24 distractors: the
    option set is not of size 25. *)
Lemma short_pool_not_25 :
  fst (presented_options false
         {| prompt := "Q"; answer_text := "c";
            or_recall_texts := ["a"; "b"; "c"]%string; data_id := 1 |}
         [5; 3; 1])
  = ["c"; "b"; "a"]%string /\
  length (fst (presented_options false
                 {| prompt := "Q"; answer_text := "c";
                    or_recall_texts := ["a"; "b"; "c"]%string; data_id := 1 |}
                 [5; 3; 1])) <> 25.
Proof.
  split; [reflexivity | vm_compute; discriminate].
Qed.

(** ** Labelling and rendering *)

Lemma str_append_assoc (a b c : string) :
  ((a ++ b) ++ c = a ++ (b ++ c))%string.
Proof.
  induction a as [|x a IH]; simpl; [reflexivity | now rewrite IH].
Qed.

Lemma label_name_alphabet : label_name = alphabet.
Proof. reflexivity. Qed.

Lemma alphabet_get (idx : nat) :
  idx < 52 ->
  exists c, String.get idx alphabet = Some c /\
            c = ascii_of_nat (if idx <? 26 then 65 + idx else 71 + idx).
Proof.
  intros Hlt.
  do 52 (destruct idx as [|idx]; [eexists; split; reflexivity|]).
  lia.
Qed.

Lemma last_index_of_None (answer : string) (texts : list string) :
  last_index_of answer texts = None <-> ~ In answer texts.
Proof.
  induction texts as [|t texts IH]; simpl.
  - tauto.
  - destruct (last_index_of answer texts) as [i|].
    + split; [discriminate|]. intros Hn. exfalso.
      assert (Hsome : Some i = None) by (apply IH; tauto). discriminate.
    + destruct (String.eqb_spec t answer) as [->|Hne].
      * split; [discriminate | tauto].
      * split; [|reflexivity]. intros _ [H|H]; [congruence | now apply IH].
Qed.

Lemma last_index_of_Some (answer : string) (texts : list string) (i : nat) :
  last_index_of answer texts = Some i ->
  nth_error texts i = Some answer /\
  i < length texts /\
  forall j, i < j -> nth_error texts j <> Some answer.
Proof.
  revert i. induction texts as [|t texts IH]; intros i Hi; simpl in Hi.
  - discriminate.
  - destruct (last_index_of answer texts) as [i'|] eqn:E.
    + injection Hi as <-. destruct (IH i' eq_refl) as [Hn [Hlt Hlast]].
      split; [exact Hn | split; [simpl; lia|]].
      intros [|j] Hj; [lia|]. simpl. apply Hlast. lia.
    + destruct (String.eqb_spec t answer) as [->|Hne]; [|discriminate].
      injection Hi as <-. split; [reflexivity | split; [simpl; lia|]].
      intros [|j] Hj; [lia|]. simpl. intros Hn.
      apply nth_error_In in Hn. now apply last_index_of_None in E.
Qed.

(** The loop over the options, in closed form. *)
Lemma label_loop_spec (answer : string) :
  forall texts idx label label_str,
    idx + length texts <= 52 ->
    label_loop answer idx texts label label_str =
    Ok (match last_index_of answer texts with
        | Some i => Z.of_nat (idx + i)
        | None => label
        end,
        (label_str ++ option_lines idx texts)%string).
Proof.
  induction texts as [|t texts IH]; intros idx label label_str Hlen.
  - simpl. f_equal. f_equal. induction label_str as [|c s IHs]; simpl;
      [reflexivity | now rewrite <- IHs].
  - simpl in Hlen. cbn [label_loop option_lines last_index_of].
    destruct (alphabet_get idx) as [c [Hc _]]; [lia|].
    unfold str_item, option_line. rewrite label_name_alphabet, Hc.
    cbn [bind]. rewrite IH by lia.
    f_equal. f_equal.
    + destruct (last_index_of answer texts) as [i|].
      * f_equal. lia.
      * destruct (String.eqb t answer); [f_equal; lia | reflexivity].
    + now rewrite !str_append_assoc.
Qed.

Lemma label_and_text_spec (is_test : bool) (data : Row) (texts : list string) :
  length texts <= 52 ->
  label_and_text is_test data texts =
  match last_index_of (answer_text data) texts with
  | Some i => Ok (Z.of_nat i, rendered_text data texts)
  | None => if is_test then Ok (999%Z, rendered_text data texts)
            else Raise AssertionError
  end.
Proof.
  intros Hlen. unfold label_and_text.
  rewrite label_loop_spec by (simpl; lia). cbn [bind].
  destruct (last_index_of (answer_text data) texts) as [i|] eqn:E.
  - apply last_index_of_Some in E. destruct E as [_ [Hlt _]].
    cbn [Nat.add].
    assert (Hne : (Z.of_nat i =? 999)%Z = false) by (apply Z.eqb_neq; lia).
    rewrite Hne. destruct is_test; reflexivity.
  - destruct is_test; reflexivity.
Qed.

Lemma create_example_unfold (tokenizer : Tokenizer) (is_test : bool)
  (data : Row) (g : rng) :
  create_example tokenizer is_test data g =
  (r <- label_and_text is_test data (fst (presented_options is_test data g)) ;;
   Ok (tokenize tokenizer
         (str_replace (snd r) (eos_token tokenizer) "<end>")
       ++ [eos_token_id tokenizer],
       fst r, data_id data),
   snd (presented_options is_test data g)).
Proof.
  unfold create_example.
  destruct (presented_options is_test data g) as [input_texts g']. cbn [fst snd].
  f_equal. destruct (label_and_text is_test data input_texts) as [[label text]|e];
    reflexivity.
Qed.

Lemma training_answer_presented (data : Row) (g : rng) :
  In (answer_text data) (fst (presented_options false data g)).
Proof.
  apply (count_occ_In string_dec). rewrite count_occ_training. lia.
Qed.

Lemma presented_fits_alphabet (is_test : bool) (data : Row) (g : rng) :
  length (fst (presented_options is_test data g)) <= 52.
Proof. pose proof (length_presented is_test data g). lia. Qed.

(** C3 (as amended): at test time the label is the position of the last of
    the first 25 candidates that equals the answer, and the sentinel 999
    only when none of them does. *)
Theorem test_label_spec (tokenizer : Tokenizer) (data : Row) (g : rng) :
  exists ids label,
    create_example tokenizer true data g = (Ok (ids, label, data_id data), g) /\
    (~ In (answer_text data) (firstn 25 (or_recall_texts data)) ->
     label = 999%Z) /\
    (In (answer_text data) (firstn 25 (or_recall_texts data)) ->
     exists i,
       label = Z.of_nat i /\ i < 25 /\
       nth_error (firstn 25 (or_recall_texts data)) i = Some (answer_text data) /\
       forall j, i < j ->
         nth_error (firstn 25 (or_recall_texts data)) j <> Some (answer_text data)).
Proof.
  rewrite create_example_unfold.
  pose proof (presented_fits_alphabet true data g) as Hlen.
  rewrite presented_options_test in *. cbn [fst snd] in *.
  rewrite (label_and_text_spec true data _ Hlen).
  set (opts := firstn 25 (or_recall_texts data)) in *.
  destruct (last_index_of (answer_text data) opts) as [i|] eqn:E.
  - do 2 eexists. split; [reflexivity|]. cbn [fst].
    destruct (last_index_of_Some _ _ _ E) as [Hn [Hlt Hlast]]. split.
    + intros Hout. exfalso. apply Hout. eapply nth_error_In. eassumption.
    + intros _. exists i. repeat split; try assumption.
      unfold opts in Hlt. rewrite length_firstn in Hlt. lia.
  - do 2 eexists. split; [reflexivity|]. cbn [fst]. split.
    + reflexivity.
    + intros Hin. exfalso. apply last_index_of_None in E. tauto.
Qed.

(** A test row whose answer is the second candidate gets label 1. *)
Lemma test_label_spec_witness :
  exists ids label,
    create_example char_tokenizer true
      {| prompt := "Q"; answer_text := "x";
         or_recall_texts := ["y"; "x"]%string; data_id := 7 |} [] =
    (Ok (ids, label, 7%Z), []) /\
    label = 1%Z.
Proof.
  destruct (test_label_spec char_tokenizer
              {| prompt := "Q"; answer_text := "x";
                 or_recall_texts := ["y"; "x"]%string; data_id := 7 |} [])
    as [ids [label [Hc [_ Hin]]]].
  exists ids, label. split; [exact Hc|].
  destruct Hin as [i [Hl [Hlt [Hn Hlast]]]].
  - simpl. right. left. reflexivity.
  - destruct i as [|[|i]].
    + simpl in Hn. discriminate.
    + exact Hl.
    + destruct i; simpl in Hn; discriminate.
Defined.

(** C3, as stated, fails on a test row whose answer is among the candidates:
    the label is its position, not 999. *)
Lemma test_label_not_sentinel :
  exists ids,
    create_example char_tokenizer true
      {| prompt := "Q"; answer_text := "x";
         or_recall_texts := ["x"]%string; data_id := 7 |} [] =
    (Ok (ids, 0%Z, 7%Z), []) /\
    0%Z <> 999%Z.
Proof.
  eexists. split; [vm_compute; reflexivity | discriminate].
Qed.

(** C5: for options that fit the alphabet, the label after the loop is still
    999 exactly when no option equals the answer; in training the example
    constructor raises the assertion error exactly then, at test time it
    checks nothing and returns.  For [create_example] as a whole: the
    training call raises exactly when the answer is not presented, the test
    call always returns. *)
Theorem assertion_iff_label_unset :
  (forall (data : Row) (texts : list string),
      length texts <= 52 ->
      exists label label_str,
        label_loop (answer_text data) 0 texts 999%Z header
        = Ok (label, label_str) /\
        (label = 999%Z <-> ~ In (answer_text data) texts) /\
        (label_and_text false data texts = Raise AssertionError
         <-> label = 999%Z) /\
        exists text, label_and_text true data texts = Ok (label, text)) /\
  (forall (tokenizer : Tokenizer) (data : Row) (g : rng),
      (fst (create_example tokenizer false data g) = Raise AssertionError
       <-> ~ In (answer_text data) (fst (presented_options false data g))) /\
      exists r, fst (create_example tokenizer true data g) = Ok r).
Proof.
  split.
  - intros data texts Hlen.
    rewrite label_loop_spec by (simpl; lia).
    rewrite !(label_and_text_spec _ data texts Hlen).
    do 2 eexists. split; [reflexivity|].
    destruct (last_index_of (answer_text data) texts) as [i|] eqn:E.
    + destruct (last_index_of_Some _ _ _ E) as [Hn [Hlt _]].
      assert (Hne : Z.of_nat (0 + i) <> 999%Z) by lia.
      split; [|split].
      * split; [tauto|]. intros Hout. exfalso. apply Hout.
        eapply nth_error_In. eassumption.
      * split; [discriminate | tauto].
      * eexists. reflexivity.
    + apply last_index_of_None in E. split; [|split].
      * tauto.
      * tauto.
      * eexists. reflexivity.
  - intros tokenizer data g. split.
    + rewrite create_example_unfold. cbn [fst].
      rewrite (label_and_text_spec false data _
                 (presented_fits_alphabet false data g)).
      pose proof (training_answer_presented data g) as Hin.
      destruct (last_index_of (answer_text data)
                  (fst (presented_options false data g))) as [i|] eqn:E.
      * split; [discriminate | tauto].
      * apply last_index_of_None in E. tauto.
    + rewrite create_example_unfold. cbn [fst].
      rewrite (label_and_text_spec true data _
                 (presented_fits_alphabet true data g)).
      destruct (last_index_of (answer_text data)
                  (fst (presented_options true data g)));
        eexists; reflexivity.
Qed.

(** Two options, neither the answer: the label stays 999. *)
Lemma assertion_iff_label_unset_witness :
  length ["y"; "z"]%string <= 52 /\
  label_and_text false
    {| prompt := "Q"; answer_text := "x";
       or_recall_texts := []; data_id := 7 |} ["y"; "z"]%string
  = Raise AssertionError.
Proof.
  assert (Hlen : length ["y"; "z"]%string <= 52) by (simpl; lia).
  split; [exact Hlen|].
  destruct (proj1 assertion_iff_label_unset
              {| prompt := "Q"; answer_text := "x";
                 or_recall_texts := []; data_id := 7 |}
              ["y"; "z"]%string Hlen)
    as [label [label_str [Hloop [Hlabel [Hassert _]]]]].
  apply Hassert. apply Hlabel.
  simpl. intros [H|[H|[]]]; discriminate.
Defined.

(** C10: on a training row exactly one presented option is the answer, and
    the example constructor returns with the label at that option's
    position: the assertion cannot fire. *)
Theorem training_assertion_unreachable (tokenizer : Tokenizer) (data : Row)
  (g : rng) :
  count_occ string_dec (fst (presented_options false data g))
            (answer_text data) = 1 /\
  exists ids label,
    fst (create_example tokenizer false data g)
    = Ok (ids, label, data_id data) /\
    (0 <= label < Z.of_nat (length (fst (presented_options false data g))))%Z /\
    nth_error (fst (presented_options false data g)) (Z.to_nat label)
    = Some (answer_text data) /\
    label <> 999%Z.
Proof.
  split; [apply count_occ_training|].
  rewrite create_example_unfold. cbn [fst].
  rewrite (label_and_text_spec false data _
             (presented_fits_alphabet false data g)).
  pose proof (training_answer_presented data g) as Hin.
  pose proof (length_presented false data g) as Hlen.
  destruct (last_index_of (answer_text data)
              (fst (presented_options false data g))) as [i|] eqn:E.
  - destruct (last_index_of_Some _ _ _ E) as [Hn [Hlt _]].
    do 2 eexists. split; [reflexivity|]. cbn [fst].
    rewrite Nat2Z.id. repeat split; try assumption; lia.
  - apply last_index_of_None in E. tauto.
Qed.

Lemma str_append_nil_r (a : string) : (a ++ EmptyString)%string = a.
Proof. induction a as [|c a IH]; simpl; [reflexivity | now rewrite IH]. Qed.

(** The option lines written out: one lettered line per option, joined. *)
Lemma option_lines_concat (texts : list string) :
  forall idx,
    idx + length texts <= 52 ->
    option_lines idx texts =
    String.concat EmptyString
      (map (fun it : nat * string =>
              String (ascii_of_nat (if (fst it <? 26)%nat then 65 + fst it
                                    else 71 + fst it))
                     ("." ++ snd it ++ String "010"%char EmptyString))
           (combine (seq idx (length texts)) texts)).
Proof.
  induction texts as [|t texts IH]; intros idx Hlen; [reflexivity|].
  simpl in Hlen. cbn [option_lines length seq combine map].
  destruct (alphabet_get idx) as [c [Hc Hcode]]; [lia|].
  unfold option_line. rewrite Hc, Hcode, (IH (S idx)) by lia.
  destruct texts as [|t' texts].
  - cbn [length seq combine map String.concat]. apply str_append_nil_r.
  - reflexivity.
Qed.

(** The prompt text with its two fixed parts spelt out. *)
Lemma rendered_text_literal (data : Row) (texts : list string) :
  length texts <= 52 ->
  rendered_text data texts =
  (prompt data
   ++ String "010"%char "Candidate distractor Analyses:"
   ++ String.concat EmptyString
        (map (fun it : nat * string =>
                String (ascii_of_nat (if (fst it <? 26)%nat then 65 + fst it
                                      else 71 + fst it))
                       ("." ++ snd it ++ String "010"%char EmptyString))
             (combine (seq 0 (length texts)) texts))
   ++ "###Answer###:The option with the correct distractor Analyse is")%string.
Proof.
  intros Hlen. unfold rendered_text.
  rewrite (option_lines_concat texts 0) by (simpl; lia).
  rewrite str_append_assoc. reflexivity.
Qed.

(** C8: the prompt text is the row's prompt, the fixed header (a newline and
    "Candidate distractor Analyses:"), one line per presented option in
    order, and the fixed instruction asking for the correct option; the
    line of the option at position [idx] is the letter at position [idx] of
    A..Za..z, a dot, the option and a newline; the token sequence is that
    text, with the end-of-sequence string replaced, tokenized and closed by
    the end-of-sequence id. *)
Theorem rendered_prompt_spec (tokenizer : Tokenizer) (is_test : bool)
  (data : Row) (g : rng) :
  let options := fst (presented_options is_test data g) in
  let text :=
    (prompt data
     ++ String "010"%char "Candidate distractor Analyses:"
     ++ String.concat EmptyString
          (map (fun it : nat * string =>
                  String (ascii_of_nat (if (fst it <? 26)%nat then 65 + fst it
                                        else 71 + fst it))
                         ("." ++ snd it ++ String "010"%char EmptyString))
               (combine (seq 0 (length options)) options))
     ++ "###Answer###:The option with the correct distractor Analyse is")%string in
  (exists label,
      label_and_text is_test data options = Ok (label, text) /\
      fst (create_example tokenizer is_test data g)
      = Ok (tokenize tokenizer (str_replace text (eos_token tokenizer) "<end>")
            ++ [eos_token_id tokenizer],
            label, data_id data)) /\
  (forall idx,
      idx < length options ->
      String.get idx "ABCDEFGHIJKLMNOPQRSTUVWXYZabcdefghijklmnopqrstuvwxyz"
      = Some (ascii_of_nat (if idx <? 26 then 65 + idx else 71 + idx))).
Proof.
  cbv zeta.
  pose proof (presented_fits_alphabet is_test data g) as Hfit.
  rewrite <- (rendered_text_literal data _ Hfit).
  split.
  - rewrite create_example_unfold. cbn [fst].
    rewrite (label_and_text_spec is_test data _ Hfit).
    destruct (last_index_of (answer_text data)
                (fst (presented_options is_test data g))) as [i|] eqn:E.
    + eexists. split; reflexivity.
    + destruct is_test.
      * eexists. split; reflexivity.
      * apply last_index_of_None in E.
        exfalso. apply E. apply training_answer_presented.
  - intros idx Hidx.
    destruct (alphabet_get idx) as [c [Hc Hcode]]; [lia|].
    unfold alphabet in Hc. rewrite Hc, Hcode. reflexivity.
Qed.

(** A test row with two candidates, rendered. *)
Lemma rendered_prompt_spec_witness :
  exists label,
    label_and_text true
      {| prompt := "Q"; answer_text := "x";
         or_recall_texts := ["y"; "x"]%string; data_id := 7 |}
      ["y"; "x"]%string
    = Ok (label,
          ("Q"
           ++ String "010"%char "Candidate distractor Analyses:A.y"
           ++ String "010"%char "B.x"
           ++ String "010"%char
                "###Answer###:The option with the correct distractor Analyse is")%string).
Proof.
  destruct (proj1 (rendered_prompt_spec char_tokenizer true
                     {| prompt := "Q"; answer_text := "x";
                        or_recall_texts := ["y"; "x"]%string; data_id := 7 |} []))
    as [label [Htext _]].
  exists label. exact Htext.
Defined.

(** ** The last real token *)

Lemma index_of_Some (x : Z) (l : list Z) (r : nat) :
  index_of x l = Some r ->
  nth_error l r = Some x /\ r < length l /\
  forall j, j < r -> nth_error l j <> Some x.
Proof.
  revert r. induction l as [|y l IH]; intros r Hr; simpl in Hr; [discriminate|].
  destruct (Z.eqb_spec y x) as [->|Hne].
  - injection Hr as <-. split; [reflexivity | split; [simpl; lia | intros j Hj; lia]].
  - destruct (index_of x l) as [r'|]; simpl in Hr; [|discriminate].
    injection Hr as <-. destruct (IH r' eq_refl) as [Hn [Hlt Hfirst]].
    split; [exact Hn | split; [simpl; lia|]].
    intros [|j] Hj; simpl; [congruence | apply Hfirst; lia].
Qed.

(** [argmax] over the 0/1 image of a comparison, with a best value so far. *)
Lemma argmax_from_indicator (pad : Z) (rest : list Z) :
  forall best_i best_v i,
    (best_v = 0 \/ best_v = 1)%Z ->
    argmax_from best_i best_v i (to_int (torch_eq rest pad)) =
    if (best_v =? 1)%Z then best_i
    else match index_of pad rest with
         | Some p => i + p
         | None => best_i
         end.
Proof.
  induction rest as [|t rest IH]; intros best_i best_v i Hv; simpl.
  - destruct (best_v =? 1)%Z; reflexivity.
  - destruct (Z.eqb_spec t pad) as [->|Hne].
    + destruct Hv as [-> | ->]; simpl.
      * rewrite IH by (now right). simpl. f_equal. lia.
      * rewrite IH by (now right). reflexivity.
    + destruct Hv as [-> | ->]; simpl.
      * rewrite IH by (now left). simpl.
        destruct (index_of pad rest) as [p|]; simpl; [lia | reflexivity].
      * rewrite IH by (now right). reflexivity.
Qed.

Lemma argmax_first_pad (row : list Z) (pad : Z) :
  row <> [] ->
  argmax (to_int (torch_eq row pad)) =
  Ok (match index_of pad row with Some p => p | None => 0 end).
Proof.
  destruct row as [|t rest]; [congruence|]. intros _. simpl.
  destruct (Z.eqb_spec t pad) as [->|Hne].
  - rewrite argmax_from_indicator by (now right). reflexivity.
  - rewrite argmax_from_indicator by (now left). simpl.
    destruct (index_of pad rest); reflexivity.
Qed.

(** C6 (as amended): in the training loop and in the evaluator alike, the
    extraction index of a non-empty row is ((index of the first pad token,
    or 0 without one) - 1) modulo the row length.  When the first pad token
    stands at a position [p + 1], that index is [p], the last token before
    any padding; when the row has no pad token or starts with it, the index
    is the last position of the row. *)
Theorem last_token_index (row : list Z) (pad_token_id : Z) (Hrow : row <> []) :
  train_sequence_length row pad_token_id =
  Ok ((match index_of pad_token_id row with
       | Some p => Z.of_nat p
       | None => 0
       end - 1) mod Z.of_nat (length row))%Z /\
  eval_sequence_length row pad_token_id = train_sequence_length row pad_token_id /\
  (forall p,
      index_of pad_token_id row = Some (S p) ->
      train_sequence_length row pad_token_id = Ok (Z.of_nat p) /\
      nth_error row (S p) = Some pad_token_id /\
      forall j, j <= p -> nth_error row j <> Some pad_token_id) /\
  (index_of pad_token_id row = None \/ index_of pad_token_id row = Some 0 ->
   train_sequence_length row pad_token_id
   = Ok (Z.of_nat (length row) - 1)%Z).
Proof.
  assert (Hmain : train_sequence_length row pad_token_id =
                  Ok ((match index_of pad_token_id row with
                       | Some p => Z.of_nat p
                       | None => 0
                       end - 1) mod Z.of_nat (length row))%Z).
  { unfold train_sequence_length. rewrite (argmax_first_pad row _ Hrow).
    cbn [bind]. destruct (index_of pad_token_id row); reflexivity. }
  split; [exact Hmain | split; [reflexivity | split]].
  - intros p Hp. rewrite Hmain, Hp.
    destruct (index_of_Some _ _ _ Hp) as [Hn [Hlt Hfirst]].
    split; [|split].
    + f_equal. rewrite Z.mod_small; lia.
    + exact Hn.
    + intros j Hj. apply Hfirst. lia.
  - intros Hedge. rewrite Hmain.
    assert (Hlen : (0 < Z.of_nat (length row))%Z)
      by (destruct row; [congruence | simpl length; lia]).
    assert (Hfirst : (match index_of pad_token_id row with
                      | Some p => Z.of_nat p
                      | None => 0
                      end = 0)%Z)
      by (destruct Hedge as [-> | ->]; reflexivity).
    rewrite Hfirst. f_equal. symmetry.
    apply (Z.mod_unique (0 - 1) (Z.of_nat (length row)) (-1)); lia.
Qed.

(** Three tokens, the end-of-sequence token, then padding. *)
Lemma last_token_index_witness :
  [5; 6; 7; 2; 2]%Z <> [] /\
  eval_sequence_length [5; 6; 7; 2; 2]%Z 2 = Ok 2%Z /\
  train_sequence_length [5; 6; 7; 2; 2]%Z 2 = Ok 2%Z.
Proof.
  assert (Hrow : [5; 6; 7; 2; 2]%Z <> []) by discriminate.
  split; [exact Hrow|].
  destruct (last_token_index [5; 6; 7; 2; 2]%Z 2 Hrow) as [_ [Heval [Hlast _]]].
  destruct (Hlast 2 eq_refl) as [Htrain _].
  split; [rewrite Heval|]; exact Htrain.
Defined.

(** C6, as stated, fails on a row that starts with the pad token: there is
    no token before the first padding token, and the index, the last
    position of the row, is a padding cell. *)
Lemma pad_first_reads_padding :
  [2; 5; 6; 7; 2; 2]%Z <> [] /\
  index_of 2 [2; 5; 6; 7; 2; 2]%Z = Some 0 /\
  train_sequence_length [2; 5; 6; 7; 2; 2]%Z 2 = Ok 5%Z /\
  eval_sequence_length [2; 5; 6; 7; 2; 2]%Z 2 = Ok 5%Z /\
  nth_error [2; 5; 6; 7; 2; 2]%Z 5 = Some 2%Z /\
  nth_error [2; 5; 6; 7; 2; 2]%Z 3 = Some 7%Z.
Proof.
  repeat split; try reflexivity. discriminate.
Qed.

(** ** The collator *)

Lemma fold_left_max_spec (l : list nat) :
  forall x,
    x <= fold_left Nat.max l x /\
    Forall (fun y => y <= fold_left Nat.max l x) l /\
    (fold_left Nat.max l x = x \/ In (fold_left Nat.max l x) l).
Proof.
  induction l as [|y l IH]; intros x; simpl.
  - repeat split; [lia | constructor | now left].
  - destruct (IH (Nat.max x y)) as [Hx [Hall Hin]]. split; [lia | split].
    + constructor; [lia | assumption].
    + destruct Hin as [Heq|Hin]; [|now right; right].
      destruct (Nat.max_spec x y) as [[_ Hm]|[_ Hm]]; rewrite Hm in *.
      * right. left. congruence.
      * now left.
Qed.

Lemma skipn_repeat {A : Type} (v : A) (k m : nat) :
  skipn k (repeat v m) = repeat v (m - k).
Proof.
  revert k. induction m as [|m IH]; intros [|k]; simpl; try reflexivity.
  apply IH.
Qed.

Lemma map_combine_seq_repeat {A B : Type} (f : nat * A -> B) (c : A) (n : nat) :
  forall s,
    map f (combine (seq s n) (repeat c n)) = map (fun i => f (i, c)) (seq s n).
Proof.
  induction n as [|n IH]; intros s; simpl; [reflexivity | now rewrite IH].
Qed.

Lemma map_nth_seq {A B : Type} (g : A -> B) (d : A) (l : list A) :
  forall pre,
    map (fun i => g (nth i (pre ++ l) d)) (seq (length pre) (length l))
    = map g l.
Proof.
  induction l as [|a l IH]; intros pre; simpl; [reflexivity|].
  rewrite app_nth2, Nat.sub_diag by lia. simpl. f_equal.
  specialize (IH (pre ++ [a])). rewrite <- app_assoc in IH. simpl in IH.
  rewrite length_app in IH. simpl in IH.
  replace (length pre + 1) with (S (length pre)) in IH by lia.
  exact IH.
Qed.

(** Padding in closed form: every row followed by filler up to the width. *)
Lemma padding_spec (inputs : list (list Z)) (val : Z) :
  inputs <> [] ->
  exists max_len,
    py_max (map (@length Z) inputs) = Ok max_len /\
    Forall (fun row => length row <= max_len) inputs /\
    (exists row, In row inputs /\ length row = max_len) /\
    padding inputs val =
    Ok (map (fun row => row ++ repeat val (max_len - length row)) inputs).
Proof.
  intros Hne. destruct inputs as [|row0 inputs]; [congruence|].
  set (all := row0 :: inputs).
  exists (fold_left Nat.max (map (@length Z) inputs) (length row0)).
  destruct (fold_left_max_spec (map (@length Z) inputs) (length row0))
    as [Hx [Hall Hin]].
  set (max_len := fold_left Nat.max (map (@length Z) inputs) (length row0)) in *.
  split; [reflexivity | split; [|split]].
  - constructor; [exact Hx|]. rewrite Forall_map in Hall. exact Hall.
  - destruct Hin as [Heq|Hin].
    + exists row0. split; [now left | now symmetry].
    + apply in_map_iff in Hin. destruct Hin as [row [Hlen Hrow]].
      exists row. split; [now right | assumption].
  - unfold padding. fold all.
    change (py_max (map (@length Z) all)) with (Ok (A := nat) max_len).
    cbn [bind]. f_equal. unfold enumerate.
    rewrite repeat_length, map_combine_seq_repeat.
    rewrite Z.mul_1_l.
    rewrite <- (map_nth_seq
                  (fun row => row ++ repeat val (max_len - length row))
                  [] all []).
    apply map_ext. intros i. simpl app. now rewrite skipn_repeat.
Qed.

(** C7: on a non-empty batch the token matrix has one row per instance, all
    of the width of the longest sequence; each row is its instance's
    sequence followed by the end-of-sequence id only; labels and identifiers
    are those of the instances, in order. *)
Theorem collate_fn_spec (tokenizer : Tokenizer) (instances : list Instance)
  (Hne : instances <> []) :
  exists batch max_len,
    collate_fn tokenizer instances = Ok batch /\
    Forall (fun inst => length (input_ids inst) <= max_len) instances /\
    (exists inst, In inst instances /\ length (input_ids inst) = max_len) /\
    length (batch_input_ids batch) = length instances /\
    (forall i inst,
        nth_error instances i = Some inst ->
        exists row,
          nth_error (batch_input_ids batch) i = Some row /\
          length row = max_len /\
          firstn (length (input_ids inst)) row = input_ids inst /\
          skipn (length (input_ids inst)) row
          = repeat (eos_token_id tokenizer) (max_len - length (input_ids inst))) /\
    batch_labels batch = map labels instances /\
    batch_data_ids batch = map data_ids instances.
Proof.
  destruct (padding_spec (map input_ids instances) (eos_token_id tokenizer))
    as [max_len [_ [Hall [[row [Hrow Hlen]] Hpad]]]].
  { destruct instances; [congruence | discriminate]. }
  unfold collate_fn. rewrite Hpad. cbn [bind].
  eexists. exists max_len. split; [reflexivity|]. cbn.
  rewrite Forall_map in Hall.
  split; [exact Hall | split; [|split; [|split; [|split; reflexivity]]]].
  - apply in_map_iff in Hrow. destruct Hrow as [inst [Heq Hin]].
    exists inst. split; [assumption | congruence].
  - now rewrite !length_map.
  - intros i inst Hi. eexists. split.
    + rewrite map_map. apply map_nth_error. exact Hi.
    + assert (Hle : length (input_ids inst) <= max_len).
      { rewrite Forall_forall in Hall. apply Hall.
        eapply nth_error_In; eassumption. }
      split; [|split].
      * rewrite length_app, repeat_length. lia.
      * rewrite firstn_app, Nat.sub_diag, firstn_all. simpl. apply app_nil_r.
      * rewrite skipn_app, Nat.sub_diag, skipn_all. reflexivity.
Qed.

(** Two instances of lengths 3 and 1. *)
Lemma collate_fn_spec_witness :
  [ {| input_ids := [11; 12; 13]%Z; labels := 4; data_ids := 100 |};
    {| input_ids := [21]%Z; labels := 0; data_ids := 101 |} ] <> [] /\
  exists batch,
    collate_fn char_tokenizer
      [ {| input_ids := [11; 12; 13]%Z; labels := 4; data_ids := 100 |};
        {| input_ids := [21]%Z; labels := 0; data_ids := 101 |} ]
    = Ok batch /\
    batch_labels batch = [4; 0]%Z /\ batch_data_ids batch = [100; 101]%Z.
Proof.
  assert (Hne : [ {| input_ids := [11; 12; 13]%Z; labels := 4; data_ids := 100 |};
                  {| input_ids := [21]%Z; labels := 0; data_ids := 101 |} ] <> [])
    by discriminate.
  split; [exact Hne|].
  destruct (collate_fn_spec char_tokenizer _ Hne)
    as [batch [max_len [Hc [_ [_ [_ [_ [Hl Hd]]]]]]]].
  exists batch. split; [exact Hc | split; [exact Hl | exact Hd]].
Defined.

(** ** The checkpoint saver *)

Lemma prefix_spec (needle hay : string) :
  String.prefix needle hay = true <-> exists post, hay = (needle ++ post)%string.
Proof.
  revert hay. induction needle as [|a needle IH]; intros hay.
  - split; [intros _; now exists hay | destruct hay; reflexivity].
  - destruct hay as [|b hay]; simpl.
    + split; [discriminate | intros [post H]; discriminate].
    + destruct (ascii_dec a b) as [->|Hab].
      * rewrite IH. split; intros [post H]; exists post; congruence.
      * split; [discriminate | intros [post H]; congruence].
Qed.

Lemma str_in_spec (needle hay : string) :
  str_in needle hay = true <-> contains needle hay.
Proof.
  unfold contains. induction hay as [|c hay IH].
  - cbn [str_in]. rewrite orb_false_r, prefix_spec. split.
    + intros [post H]. now exists EmptyString, post.
    + intros [[|a pre] [post H]]; [now exists post | discriminate].
  - cbn [str_in]. rewrite orb_true_iff, prefix_spec, IH. split.
    + intros [[post H] | [pre [post H]]].
      * now exists EmptyString, post.
      * exists (String c pre), post. simpl. congruence.
    + intros [[|a pre] [post H]].
      * left. now exists post.
      * right. exists pre, post. simpl in H. congruence.
Qed.

Lemma dict_set_fresh {V : Type} (d : list (string * V)) (k : string) (v : V) :
  ~ In k (map fst d) -> dict_set d k v = d ++ [(k, v)].
Proof.
  induction d as [|[k' v'] d IH]; intros Hk; simpl in *; [reflexivity|].
  destruct (String.eqb_spec k' k) as [->|Hne]; [tauto|].
  rewrite IH; [reflexivity | tauto].
Qed.

(** On a dict (no key twice) the loop is a filter that keeps the order. *)
Lemma final_d_filter {V : Type} (save_dict : list (string * V)) :
  NoDup (map fst save_dict) ->
  final_d save_dict = filter (fun kv => adapter_name (fst kv)) save_dict.
Proof.
  unfold final_d.
  enough (H : forall acc,
             NoDup (map fst acc ++ map fst save_dict) ->
             fold_left
               (fun acc kv =>
                  if str_in "lora" (fst kv) || str_in "score" (fst kv)
                  then dict_set acc (fst kv) (snd kv) else acc)
               save_dict acc
             = acc ++ filter (fun kv => adapter_name (fst kv)) save_dict)
    by (intros Hnd; apply (H [] Hnd)).
  induction save_dict as [|[k v] sd IH]; intros acc Hnd; simpl.
  - now rewrite app_nil_r.
  - simpl in Hnd. unfold adapter_name at 1. cbn [fst].
    destruct (str_in "lora" k || str_in "score" k).
    + rewrite dict_set_fresh.
      * rewrite IH; [now rewrite <- app_assoc|].
        rewrite map_app, <- app_assoc. exact Hnd.
      * apply NoDup_remove_2 in Hnd. intros Hin. apply Hnd.
        apply in_or_app. now left.
    + apply IH. apply NoDup_remove_1 in Hnd. exact Hnd.
Qed.

(** C9: whenever [save_model] writes a checkpoint file, it is adapter.bin in
    the sub-folder of the output directory, it holds exactly the entries of
    the state dict whose name contains lora or score, in their order, and the
    tokenizer has been saved into that same sub-folder; the file is written
    when a sub-folder is named and the process has global rank 0. *)
Theorem save_model_adapter_only {tensor : Type} (args : Args)
  (state_dict : list (string * tensor)) (sub_fold : option string)
  (Hdict : NoDup (map fst state_dict)) :
  (forall file d,
      In (TorchSaved file d) (save_model args state_dict sub_fold) ->
      d = filter (fun kv => adapter_name (fst kv)) state_dict /\
      (forall k v,
          In (k, v) d <->
          In (k, v) state_dict /\ (contains "lora" k \/ contains "score" k)) /\
      exists sub,
        sub_fold = Some sub /\
        global_rank args = 0%Z /\
        file = path_join (path_join (output_dir args) sub) "adapter.bin" /\
        In (TokenizerSaved (path_join (output_dir args) sub))
           (save_model args state_dict sub_fold)) /\
  (forall sub,
      sub_fold = Some sub -> global_rank args = 0%Z ->
      In (TorchSaved (path_join (path_join (output_dir args) sub) "adapter.bin")
                     (final_d state_dict))
         (save_model args state_dict sub_fold)).
Proof.
  split.
  - intros file d Hin. destruct sub_fold as [sub|]; [|destruct Hin].
    unfold save_model, print_rank_0 in Hin.
    assert (Hsaved : global_rank args = 0%Z /\
                     file = path_join (path_join (output_dir args) sub)
                                      "adapter.bin" /\
                     d = final_d state_dict).
    { destruct (global_rank args <=? 0)%Z;
        destruct (Z.eqb_spec (global_rank args) 0) as [Hr|Hr];
        simpl in Hin;
        repeat (destruct Hin as [Hin|Hin]; try discriminate; try tauto);
        injection Hin as <- <-; auto. }
    destruct Hsaved as [Hrank [-> ->]].
    rewrite (final_d_filter state_dict Hdict).
    split; [reflexivity | split].
    + intros k v. rewrite filter_In. cbn [fst]. unfold adapter_name.
      rewrite orb_true_iff, !str_in_spec. tauto.
    + exists sub. repeat split; try assumption.
      unfold save_model. apply in_or_app. right. now left.
  - intros sub -> Hrank. unfold save_model. rewrite Hrank.
    apply in_or_app. right. right. cbn. right. now left.
Qed.

(** A state dict with one base weight, one adapter weight and the head. *)
Lemma save_model_adapter_only_witness :
  NoDup (map fst [("model.embed.weight", 1); ("layers.0.q_proj.lora_A.weight", 2);
                  ("score.weight", 3)]%string) /\
  In (TorchSaved "out/best/adapter.bin"
        [("layers.0.q_proj.lora_A.weight", 2); ("score.weight", 3)]%string)
     (save_model {| output_dir := "out"; global_rank := 0 |}
        [("model.embed.weight", 1); ("layers.0.q_proj.lora_A.weight", 2);
         ("score.weight", 3)]%string
        (Some "best"%string)).
Proof.
  assert (Hdict : NoDup (map fst [("model.embed.weight", 1);
                                  ("layers.0.q_proj.lora_A.weight", 2);
                                  ("score.weight", 3)]%string)).
  { repeat constructor; simpl; intuition discriminate. }
  split; [exact Hdict|].
  apply (proj2 (save_model_adapter_only
                  {| output_dir := "out"; global_rank := 0 |}
                  [("model.embed.weight", 1);
                   ("layers.0.q_proj.lora_A.weight", 2);
                   ("score.weight", 3)]%string
                  (Some "best"%string) Hdict)
               "best"%string eq_refl eq_refl).
Defined.

(** ** argsort *)

Lemma insert_key_perm (x : Q * nat) (l : list (Q * nat)) :
  Permutation (insert_key x l) (x :: l).
Proof.
  induction l as [|y l IH]; simpl.
  - apply Permutation_refl.
  - destruct (Qle_bool (fst x) (fst y)).
    + apply Permutation_refl.
    + transitivity (y :: x :: l); [now apply perm_skip | apply perm_swap].
Qed.

Lemma insert_key_HdRel (x y : Q * nat) (l : list (Q * nat)) :
  HdRel key_le y l -> key_le y x -> HdRel key_le y (insert_key x l).
Proof.
  intros Hhd Hyx. destruct l as [|z l]; simpl.
  - now constructor.
  - destruct (Qle_bool (fst x) (fst z)); constructor;
      [assumption | now inversion Hhd].
Qed.

Lemma insert_key_sorted (x : Q * nat) (l : list (Q * nat)) :
  Sorted key_le l -> Sorted key_le (insert_key x l).
Proof.
  induction l as [|y l IH]; intros Hs; simpl.
  - repeat constructor.
  - destruct (Qle_bool (fst x) (fst y)) eqn:E.
    + constructor; [assumption|]. constructor. now apply Qle_bool_iff.
    + inversion Hs as [|? ? Hs' Hhd]; subst. constructor.
      * now apply IH.
      * apply insert_key_HdRel; [assumption|].
        unfold key_le. apply Qlt_le_weak. apply Qnot_le_lt.
        intros Hle. apply Qle_bool_iff in Hle. congruence.
Qed.

Lemma sorted_pairs_spec (l : list (Q * nat)) :
  Permutation (fold_right insert_key [] l) l /\
  Sorted key_le (fold_right insert_key [] l).
Proof.
  induction l as [|x l [IHp IHs]]; simpl.
  - split; constructor.
  - split.
    + transitivity (x :: fold_right insert_key [] l);
        [apply insert_key_perm | now apply perm_skip].
    + now apply insert_key_sorted.
Qed.

Lemma combine_seq_index (l : list Q) :
  forall s q i,
    In (q, i) (combine l (seq s (length l))) ->
    s <= i /\ i < s + length l /\ nth (i - s) l 0%Q = q.
Proof.
  induction l as [|x l IH]; intros s q i Hin; simpl in Hin; [destruct Hin|].
  destruct Hin as [Heq|Hin].
  - injection Heq as <- <-. rewrite Nat.sub_diag. simpl. repeat split; lia.
  - destruct (IH (S s) q i Hin) as [Hle [Hlt Hn]]. simpl.
    replace (i - s) with (S (i - S s)) by lia. repeat split; try lia. exact Hn.
Qed.

Lemma map_snd_combine_seq (l : list Q) :
  forall s, map snd (combine l (seq s (length l))) = seq s (length l).
Proof.
  induction l as [|x l IH]; intros s; simpl; [reflexivity | now rewrite IH].
Qed.

Lemma argsort_perm (keys : list Q) :
  Permutation (argsort keys) (seq 0 (length keys)).
Proof.
  unfold argsort.
  transitivity (map snd (combine keys (seq 0 (length keys)))).
  - apply Permutation_map. apply sorted_pairs_spec.
  - rewrite map_snd_combine_seq. apply Permutation_refl.
Qed.

Lemma key_le_trans : Relations_1.Transitive key_le.
Proof. intros a b c Hab Hbc. unfold key_le in *. eapply Qle_trans; eassumption. Qed.

Lemma StronglySorted_map {A B : Type} (R : A -> A -> Prop) (R' : B -> B -> Prop)
  (P : A -> Prop) (f : A -> B) (l : list A) :
  (forall a b, P a -> P b -> R a b -> R' (f a) (f b)) ->
  Forall P l -> StronglySorted R l -> StronglySorted R' (map f l).
Proof.
  intros Hmono HP Hs. induction Hs as [|a l Hs IH Hall]; simpl.
  - constructor.
  - inversion HP as [|? ? Pa Pl]; subst. constructor; [now apply IH|].
    rewrite Forall_map. rewrite Forall_forall in *.
    intros b Hb. apply Hmono; auto.
Qed.

Lemma StronglySorted_nth_error {A : Type} (R : A -> A -> Prop) (l : list A) :
  StronglySorted R l ->
  forall a b x y,
    a < b -> nth_error l a = Some x -> nth_error l b = Some y -> R x y.
Proof.
  intros Hs. induction Hs as [|z l Hs IH Hall]; intros a b x y Hab Ha Hb.
  - destruct a; discriminate.
  - destruct b as [|b]; [lia|]. simpl in Hb. destruct a as [|a].
    + simpl in Ha. injection Ha as <-. rewrite Forall_forall in Hall.
      apply Hall. eapply nth_error_In; eassumption.
    + simpl in Ha. apply (IH a b); [lia | assumption | assumption].
Qed.

(** Sorting the negated scores ranks the scores in descending order. *)
Lemma argsort_descending (row : list Q) :
  descending row (argsort (map Qopp row)).
Proof.
  unfold descending, argsort.
  set (pairs := combine (map Qopp row) (seq 0 (length (map Qopp row)))).
  destruct (sorted_pairs_spec pairs) as [Hperm Hsorted].
  apply (StronglySorted_map key_le _
           (fun p => fst p = (- nth (snd p) row 0)%Q) snd).
  - intros a b Ha Hb Hab. unfold key_le in Hab. rewrite Ha, Hb in Hab.
    apply Qopp_le_compat in Hab. now rewrite !Qopp_involutive in Hab.
  - rewrite Forall_forall. intros [q i] Hin.
    apply (Permutation_in _ Hperm) in Hin.
    apply combine_seq_index in Hin. destruct Hin as [_ [_ Hn]].
    rewrite Nat.sub_0_r in Hn. cbn [fst snd]. rewrite <- Hn.
    change 0%Q with (- 0)%Q at 1. apply map_nth.
  - apply Sorted_StronglySorted; [apply key_le_trans | assumption].
Qed.

Lemma descending_ranked_before (row : list Q) (ranking : list nat) (i j : nat) :
  descending row ranking ->
  In i ranking -> In j ranking ->
  (nth j row 0 < nth i row 0)%Q ->
  ranked_before ranking i j.
Proof.
  intros Hdesc Hi Hj Hlt.
  apply In_nth_error in Hi. destruct Hi as [a Ha].
  apply In_nth_error in Hj. destruct Hj as [b Hb].
  exists a, b. split; [assumption | split; [assumption|]].
  destruct (Nat.lt_trichotomy a b) as [Hab|[Hab|Hab]]; [assumption | |].
  - subst b. rewrite Ha in Hb. injection Hb as ->.
    exfalso. eapply Qlt_irrefl. eassumption.
  - exfalso.
    pose proof (StronglySorted_nth_error _ _ Hdesc b a j i Hab Hb Ha) as Hle.
    simpl in Hle. eapply Qlt_not_le; eassumption.
Qed.

(** ** drop_duplicates *)

Lemma drop_duplicates_from_In (df : list Prediction) :
  forall seen r,
    In r (drop_duplicates_from seen df) <->
    exists pre post,
      df = pre ++ r :: post /\
      ~ In (df_data_id r) seen /\
      ~ In (df_data_id r) (map df_data_id pre).
Proof.
  induction df as [|r0 df IH]; intros seen r; simpl.
  - split; [tauto|]. intros [pre [post [H _]]]. destruct pre; discriminate.
  - destruct (py_in (df_data_id r0) seen) eqn:E.
    + apply py_in_In in E. rewrite IH. split.
      * intros [pre [post [-> [Hseen Hpre]]]].
        exists (r0 :: pre), post. split; [reflexivity | split; [assumption|]].
        simpl. intros [Heq|Hin]; [congruence | tauto].
      * intros [pre [post [Hsplit [Hseen Hpre]]]].
        destruct pre as [|p pre]; simpl in Hsplit; injection Hsplit as <- ->.
        -- tauto.
        -- exists pre, post. simpl in Hpre. tauto.
    + apply py_in_not_In in E. simpl. rewrite IH. split.
      * intros [<-|[pre [post [-> [Hseen Hpre]]]]].
        -- exists [], df. simpl. tauto.
        -- exists (r0 :: pre), post. simpl in *. tauto.
      * intros [pre [post [Hsplit [Hseen Hpre]]]].
        destruct pre as [|p pre]; simpl in Hsplit; injection Hsplit as <- ->.
        -- now left.
        -- right. exists pre, post. simpl in *. tauto.
Qed.

Lemma drop_duplicates_from_NoDup (df : list Prediction) :
  forall seen, NoDup (map df_data_id (drop_duplicates_from seen df)).
Proof.
  induction df as [|r0 df IH]; intros seen; simpl.
  - constructor.
  - destruct (py_in (df_data_id r0) seen); [apply IH|].
    simpl. constructor; [|apply IH].
    intros Hin. apply in_map_iff in Hin. destruct Hin as [r [Hid Hr]].
    apply drop_duplicates_from_In in Hr.
    destruct Hr as [_ [_ [_ [Hseen _]]]]. apply Hseen. left. congruence.
Qed.

(** ** The evaluator's score *)

Lemma data_frame_columns (data_ids : list Z) (predict : list (list Z))
  (labels : list Z) :
  length data_ids = length predict ->
  length predict = length labels ->
  exists frame,
    data_frame data_ids predict labels = Ok frame /\
    map df_data_id frame = data_ids /\
    map df_predict frame = predict /\
    map df_label frame = labels.
Proof.
  intros H1 H2. unfold data_frame.
  rewrite H1, H2, !Nat.eqb_refl. cbn [andb].
  eexists. split; [reflexivity|].
  rewrite !map_map. cbn [df_data_id df_predict df_label].
  revert predict labels H1 H2.
  induction data_ids as [|i data_ids IH]; intros [|p predict] [|l labels] H1 H2;
    simpl in *; try discriminate; try (repeat split; reflexivity).
  destruct (IH predict labels) as [Hi [Hp Hl]]; try lia.
  repeat split; f_equal; assumption.
Qed.

Lemma combine_label_predict (kept : list Prediction) :
  combine (map (fun data => [data]) (map df_label kept)) (map df_predict kept)
  = map (fun r => ([df_label r], df_predict r)) kept.
Proof.
  induction kept as [|r kept IH]; simpl; [reflexivity | now rewrite IH].
Qed.

Lemma apk_over_frame (kept : list Prediction) :
  exists scores,
    comprehension (fun ap => apk (fst ap) (snd ap) 25)
      (map (fun r => ([df_label r], df_predict r)) kept) = Ok scores /\
    length scores = length kept /\
    (sumQ scores ==
     sumQ (map (fun r => reciprocal_rank (df_label r) (df_predict r) 25) kept))%Q.
Proof.
  induction kept as [|r kept [scores [Hc [Hlen Hsum]]]].
  - exists []. repeat split; reflexivity.
  - destruct (apk_single (df_label r) (df_predict r) 25) as [s [Hs Heq]]; [lia|].
    change (Z.to_nat 25) with 25 in Heq.
    exists (s :: scores). cbn [map comprehension fst snd].
    rewrite Hs, Hc. cbn [bind].
    split; [reflexivity | split; [simpl; now rewrite Hlen|]].
    unfold sumQ in *. cbn [fold_right]. now rewrite Heq, Hsum.
Qed.

Lemma mapk_over_frame (kept : list Prediction) :
  kept <> [] ->
  exists m,
    mapk (map (fun data => [data]) (map df_label kept)) (map df_predict kept) 25
    = Ok (Fin m) /\
    (m == sumQ (map (fun r => reciprocal_rank (df_label r) (df_predict r) 25)
                    kept)
          / inject_Z (Z.of_nat (length kept)))%Q.
Proof.
  intros Hne. unfold mapk. rewrite combine_label_predict.
  destruct (apk_over_frame kept) as [scores [Hc [Hlen Hsum]]].
  rewrite Hc. cbn [bind].
  destruct scores as [|s scores].
  - destruct kept; [congruence | discriminate].
  - eexists. split; [reflexivity|]. now rewrite Hlen, Hsum.
Qed.

(** C4: from the gathered arrays, the evaluator forms one record per row
    with the option indices ranked by descending logit (a permutation of the
    indices along which the logits never increase, so an option of strictly
    greater logit stands strictly earlier), keeps for each data_id its first
    record, and returns minus the mean over the kept records of the
    reciprocal rank of the record's label among its first 25 ranked options
    (0 when the label is not there): minus the mean average precision at 25
    with the label as the one relevant item.  Without any record the mean
    is numpy's nan. *)
Theorem evaluation_dist_spec (predicts : list (list Q)) (labels data_ids : list Z)
  (Hids : length data_ids = length predicts)
  (Hlabels : length predicts = length labels) :
  exists frame kept m,
    map df_data_id frame = data_ids /\
    map df_label frame = labels /\
    Forall2
      (fun row r =>
         exists ranking,
           df_predict r = map Z.of_nat ranking /\
           Permutation ranking (seq 0 (length row)) /\
           descending row ranking /\
           forall i j,
             i < length row -> j < length row ->
             (nth j row 0 < nth i row 0)%Q ->
             ranked_before ranking i j)
      predicts frame /\
    NoDup (map df_data_id kept) /\
    (forall r,
        In r kept <->
        exists pre post,
          frame = pre ++ r :: post /\
          ~ In (df_data_id r) (map df_data_id pre)) /\
    evaluation_dist predicts labels data_ids
    = Ok (match kept with [] => NaN | _ :: _ => Fin m end) /\
    (m == - (sumQ (map (fun r => reciprocal_rank (df_label r) (df_predict r) 25)
                       kept)
             / inject_Z (Z.of_nat (length kept))))%Q.
Proof.
  set (rank := fun row : list Q => map Z.of_nat (argsort (map Qopp row))).
  destruct (data_frame_columns data_ids (map rank predicts) labels)
    as [frame [Hframe [Hcol_id [Hcol_p Hcol_l]]]].
  { now rewrite length_map. }
  { now rewrite length_map. }
  assert (Heval : evaluation_dist predicts labels data_ids =
                  loss <- mapk (map (fun data => [data])
                                    (map df_label (drop_duplicates frame)))
                               (map df_predict (drop_duplicates frame)) 25 ;;
                  Ok (neg loss)).
  { unfold evaluation_dist. rewrite map_map. fold rank.
    rewrite Hframe. reflexivity. }
  assert (Hmean : exists m,
             evaluation_dist predicts labels data_ids
             = Ok (match drop_duplicates frame with
                   | [] => NaN | _ :: _ => Fin m end) /\
             (m == - (sumQ (map (fun r => reciprocal_rank (df_label r)
                                            (df_predict r) 25)
                                (drop_duplicates frame))
                      / inject_Z (Z.of_nat (length (drop_duplicates frame)))))%Q).
  { rewrite Heval. destruct (drop_duplicates frame) as [|r0 kept'] eqn:Ek.
    - eexists. split; [reflexivity | reflexivity].
    - destruct (mapk_over_frame (r0 :: kept')) as [m [Hm Hmean]]; [discriminate|].
      exists (- m)%Q. rewrite Hm. split; [reflexivity | now rewrite Hmean]. }
  destruct Hmean as [m [Hm Hmean]].
  exists frame, (drop_duplicates frame), m.
  split; [assumption | split; [assumption | split; [|split; [|split; [|split]]]]].
  - clear - Hcol_p. revert frame Hcol_p.
    induction predicts as [|row predicts IH]; intros [|r frame] Hcol;
      simpl in Hcol; try discriminate; constructor.
    + injection Hcol as Hr Hrest.
      exists (argsort (map Qopp row)).
      pose proof (argsort_perm (map Qopp row)) as Hperm.
      rewrite length_map in Hperm.
      split; [exact Hr | split; [exact Hperm | split]].
      * apply argsort_descending.
      * intros i j Hi Hj Hlt.
        apply (descending_ranked_before row); try assumption.
        -- apply argsort_descending.
        -- apply (Permutation_in _ (Permutation_sym Hperm)).
           apply in_seq. lia.
        -- apply (Permutation_in _ (Permutation_sym Hperm)).
           apply in_seq. lia.
    + apply IH. now injection Hcol.
  - apply drop_duplicates_from_NoDup.
  - intros r. unfold drop_duplicates.
    rewrite drop_duplicates_from_In. split.
    + intros [pre [post [H1 [_ H2]]]]. now exists pre, post.
    + intros [pre [post [H1 H2]]]. exists pre, post. simpl. tauto.
  - exact Hm.
  - exact Hmean.
Qed.

(** Three gathered rows, the third repeating the first identifier: the
    labels rank second and first, so the score is -(1/2 + 1)/2. *)
Lemma evaluation_dist_spec_witness :
  length [10; 11; 10]%Z = length [[1 # 10; 9 # 10; 5 # 10]; [3; 2; 1]; [0; 0; 7]]%Q /\
  length [[1 # 10; 9 # 10; 5 # 10]; [3; 2; 1]; [0; 0; 7]]%Q = length [2; 0; 2]%Z /\
  exists m,
    evaluation_dist [[1 # 10; 9 # 10; 5 # 10]; [3; 2; 1]; [0; 0; 7]]%Q
                    [2; 0; 2]%Z [10; 11; 10]%Z = Ok (Fin m) /\
    (m == - (3 # 4))%Q.
Proof.
  split; [reflexivity | split; [reflexivity|]].
  destruct (evaluation_dist_spec
              [[1 # 10; 9 # 10; 5 # 10]; [3; 2; 1]; [0; 0; 7]]%Q
              [2; 0; 2]%Z [10; 11; 10]%Z eq_refl eq_refl)
    as [frame [kept [m [_ [_ [_ [_ [_ [Heval _]]]]]]]]].
  destruct kept as [|r kept].
  - vm_compute in Heval. discriminate.
  - exists m. split; [exact Heval|].
    vm_compute in Heval. injection Heval as <-. reflexivity.
Defined.

(** * Further properties *)

(** ** The range of the metric *)

Lemma inject_nat_le (n m : nat) :
  n <= m -> (inject_Z (Z.of_nat n) <= inject_Z (Z.of_nat m))%Q.
Proof. intros H. rewrite <- Zle_Qle. lia. Qed.

Lemma inject_nat_S (n : nat) :
  (inject_Z (Z.of_nat (S n)) == inject_Z (Z.of_nat n) + 1)%Q.
Proof.
  rewrite Nat2Z.inj_succ. unfold Z.succ. rewrite inject_Z_plus. reflexivity.
Qed.

Lemma inject_nat_nonneg (n : nat) : (0 <= inject_Z (Z.of_nat n))%Q.
Proof. change 0%Q with (inject_Z 0). rewrite <- Zle_Qle. lia. Qed.

(** The loop keeps the score between 0 and the number of hits, and the hits
    are distinct relevant items met so far. *)
Lemma apk_loop_bounds (actual predicted : list Z) :
  forall rest done s h hs,
    predicted = done ++ rest ->
    NoDup hs -> incl hs actual -> incl hs done ->
    (h == inject_Z (Z.of_nat (length hs)))%Q ->
    (0 <= s)%Q -> (s <= h)%Q ->
    exists hs',
      NoDup hs' /\ incl hs' actual /\ incl hs' predicted /\
      (snd (apk_loop actual predicted (length done) rest s h)
       == inject_Z (Z.of_nat (length hs')))%Q /\
      (0 <= fst (apk_loop actual predicted (length done) rest s h))%Q /\
      (fst (apk_loop actual predicted (length done) rest s h)
       <= snd (apk_loop actual predicted (length done) rest s h))%Q.
Proof.
  induction rest as [|p rest IH]; intros done s h hs Hsplit Hnd Hact Hdone Hh Hs0 Hsh.
  - exists hs. simpl. rewrite app_nil_r in Hsplit. subst done.
    repeat split; assumption.
  - assert (Hsplit' : predicted = (done ++ [p]) ++ rest)
      by (rewrite <- app_assoc; exact Hsplit).
    assert (Hlen' : length (done ++ [p]) = S (length done))
      by (rewrite length_app; simpl; lia).
    cbn [apk_loop].
    destruct (py_in p actual && negb (py_in p (firstn (length done) predicted)))
      eqn:Ehit.
    + apply andb_true_iff in Ehit. destruct Ehit as [Hin Hnew].
      apply py_in_In in Hin. apply negb_true_iff, py_in_not_In in Hnew.
      assert (Hpre : firstn (length done) predicted = done).
      { rewrite Hsplit, firstn_app, Nat.sub_diag, firstn_all. simpl.
        apply app_nil_r. }
      rewrite Hpre in Hnew.
      assert (Hcount : length hs <= length done)
        by (apply NoDup_incl_length; assumption).
      rewrite <- Hlen'.
      apply (IH (done ++ [p]) _ _ (p :: hs)); try assumption.
      * constructor; [|assumption]. intros Hp. apply Hnew. now apply Hdone.
      * intros x [<-|Hx]; [assumption | now apply Hact].
      * intros x [<-|Hx]; apply in_or_app; [right; now left | left; now apply Hdone].
      * cbn [length]. rewrite inject_nat_S, Hh. reflexivity.
      * assert (Hpos : (0 < inject_Z (Z.of_nat (length done)) + 1)%Q).
        { pose proof (inject_nat_nonneg (length done)). lra. }
        assert (Hterm : (0 <= (h + 1) / (inject_Z (Z.of_nat (length done)) + 1))%Q).
        { apply Qle_shift_div_l; [assumption|]. lra. }
        lra.
      * assert (Hpos : (0 < inject_Z (Z.of_nat (length done)) + 1)%Q).
        { pose proof (inject_nat_nonneg (length done)). lra. }
        assert (Hterm : ((h + 1) / (inject_Z (Z.of_nat (length done)) + 1) <= 1)%Q).
        { apply Qle_shift_div_r; [assumption|].
          pose proof (inject_nat_le _ _ Hcount). lra. }
        lra.
    + rewrite <- Hlen'.
      apply (IH (done ++ [p]) s h hs); try assumption.
      intros x Hx. apply in_or_app. left. now apply Hdone.
Qed.

Lemma slice_to_length {A : Type} (l : list A) (k : Z) :
  (0 <= k)%Z -> (Z.of_nat (length (slice_to l k)) <= k)%Z.
Proof.
  intros Hk. unfold slice_to. destruct (Z.ltb_spec k 0); [lia|].
  rewrite length_firstn. lia.
Qed.

Lemma apk_score_range (actual predicted : list Z) (k : Z) (s : Q) :
  (1 <= k)%Z -> apk actual predicted k = Ok s -> (0 <= s)%Q /\ (s <= 1)%Q.
Proof.
  intros Hk. unfold apk. destruct actual as [|a actual].
  - intros H. injection H as <-. split; [apply Qle_refl | discriminate].
  - set (act := a :: actual).
    set (cut := if (Z.of_nat (length predicted) >? k)%Z
                then slice_to predicted k else predicted).
    assert (Hcut : (Z.of_nat (length cut) <= k)%Z).
    { unfold cut. destruct (Z.gtb_spec (Z.of_nat (length predicted)) k).
      - apply slice_to_length. lia.
      - assumption. }
    destruct (apk_loop_bounds act cut cut [] 0%Q 0%Q [] eq_refl
                (NoDup_nil Z) (incl_nil_l act) (incl_nil_l [])
                (Qeq_refl 0) (Qle_refl 0) (Qle_refl 0))
      as [hs [Hnd [Hact [Hpred [Hh [Hs0 Hsh]]]]]].
    change (length (@nil Z)) with 0 in *.
    destruct (apk_loop act cut 0 cut 0%Q 0%Q) as [score hits]. cbn [fst snd] in *.
    assert (Hmin : (1 <= Z.min (Z.of_nat (length act)) k)%Z)
      by (unfold act; simpl length; lia).
    clearbody act cut.
    unfold true_div. rewrite Qeq_bool_inject_Z_nonzero by lia.
    intros H. injection H as <-.
    assert (Hpos : (0 < inject_Z (Z.min (Z.of_nat (length act)) k))%Q).
    { change 0%Q with (inject_Z 0). rewrite <- Zlt_Qlt. lia. }
    assert (Hhits : (Z.of_nat (length hs) <= Z.min (Z.of_nat (length act)) k)%Z).
    { pose proof (NoDup_incl_length Hnd Hact).
      pose proof (NoDup_incl_length Hnd Hpred). lia. }
    rewrite Zle_Qle in Hhits.
    split.
    + apply Qle_shift_div_l; [assumption|]. lra.
    + apply Qle_shift_div_r; [assumption|]. lra.
Qed.

(** X1: for a cutoff [k >= 1], whatever the two lists hold (repeats
    included), [apk] returns a score between 0 and 1. *)
Theorem apk_between_0_and_1 (actual predicted : list Z) (k : Z)
  (Hk : (1 <= k)%Z) :
  exists s, apk actual predicted k = Ok s /\ (0 <= s)%Q /\ (s <= 1)%Q.
Proof.
  destruct (apk_total actual predicted k) as [s Hs]; [lia|].
  exists s. split; [exact Hs|].
  exact (apk_score_range actual predicted k s Hk Hs).
Qed.

(** Two relevant items, one of them predicted twice. *)
Lemma apk_between_0_and_1_witness :
  (1 <= 2)%Z /\
  exists s, apk [1; 2]%Z [2; 2; 9; 1]%Z 2 = Ok s /\ (0 <= s)%Q /\ (s <= 1)%Q.
Proof.
  assert (Hk : (1 <= 2)%Z) by (vm_compute; discriminate).
  split; [exact Hk | exact (apk_between_0_and_1 [1; 2]%Z [2; 2; 9; 1]%Z 2 Hk)].
Defined.

(** X2: [apk] raises exactly when there is something relevant and the cutoff
    is 0, and what it raises then is the division error. *)
Theorem apk_raises_iff (actual predicted : list Z) (k : Z) :
  (forall e, apk actual predicted k = Raise e -> e = ZeroDivisionError) /\
  ((exists e, apk actual predicted k = Raise e) <-> actual <> [] /\ k = 0%Z).
Proof.
  unfold apk. destruct actual as [|a actual].
  - split; [discriminate|]. split; [intros [e He]; discriminate | tauto].
  - destruct (apk_loop _ _ _ _ _ _) as [score hits]. unfold true_div.
    destruct (Z.eq_dec k 0) as [->|Hk].
    + replace (Z.min (Z.of_nat (length (a :: actual))) 0) with 0%Z
        by (simpl length; lia).
      change (Qeq_bool (inject_Z 0) 0) with true. cbv iota.
      split; [intros e He; congruence|].
      split; [intros _; split; [discriminate | reflexivity]|].
      intros _. eexists. reflexivity.
    + rewrite Qeq_bool_inject_Z_nonzero by (simpl length; lia).
      split; [discriminate|].
      split; [intros [e He]; discriminate | tauto].
Qed.

Lemma apk_raises_iff_witness :
  exists e, apk [5%Z] [] 0 = Raise e.
Proof.
  apply (proj2 (apk_raises_iff [5%Z] [] 0)). split; [discriminate | reflexivity].
Defined.

(** X3: only the first [k] predictions count: two prediction lists that
    agree on their first [k] entries get the same result. *)
Theorem apk_first_k_only (actual p1 p2 : list Z) (k : Z)
  (Hk : (0 <= k)%Z)
  (Hsame : firstn (Z.to_nat k) p1 = firstn (Z.to_nat k) p2) :
  apk actual p1 k = apk actual p2 k.
Proof.
  assert (Hcut : forall p : list Z,
             (if (Z.of_nat (length p) >? k)%Z then slice_to p k else p)
             = firstn (Z.to_nat k) p).
  { intros p. destruct (Z.gtb_spec (Z.of_nat (length p)) k).
    - unfold slice_to. destruct (Z.ltb_spec k 0); [lia | reflexivity].
    - symmetry. apply firstn_all2. lia. }
  unfold apk. destruct actual as [|a actual]; [reflexivity|].
  rewrite !Hcut, Hsame. reflexivity.
Qed.

Lemma apk_first_k_only_witness :
  (0 <= 2)%Z /\ apk [7%Z] [3; 7; 1]%Z 2 = apk [7%Z] [3; 7; 9; 9]%Z 2.
Proof.
  assert (Hk : (0 <= 2)%Z) by (vm_compute; discriminate).
  split; [exact Hk|].
  apply (apk_first_k_only [7%Z] [3; 7; 1]%Z [3; 7; 9; 9]%Z 2 Hk). reflexivity.
Defined.

(** When every prediction is a new relevant item, each step is a hit and
    adds exactly 1 to the score. *)
Lemma apk_loop_all_hits (actual predicted : list Z) :
  NoDup predicted -> incl predicted actual ->
  forall rest done s h,
    predicted = done ++ rest ->
    (s == inject_Z (Z.of_nat (length done)))%Q ->
    (h == inject_Z (Z.of_nat (length done)))%Q ->
    (fst (apk_loop actual predicted (length done) rest s h)
     == inject_Z (Z.of_nat (length predicted)))%Q.
Proof.
  intros Hnd Hincl. induction rest as [|p rest IH]; intros done s h Hsplit Hs Hh.
  - simpl. rewrite app_nil_r in Hsplit. now subst done.
  - cbn [apk_loop].
    assert (Hin : py_in p actual = true).
    { apply py_in_In, Hincl. rewrite Hsplit. apply in_or_app. right. now left. }
    assert (Hnew : py_in p (firstn (length done) predicted) = false).
    { apply py_in_not_In.
      rewrite Hsplit, firstn_app, Nat.sub_diag, firstn_all. simpl.
      rewrite app_nil_r. rewrite Hsplit in Hnd.
      apply NoDup_remove_2 in Hnd. intros Hp. apply Hnd.
      apply in_or_app. now left. }
    rewrite Hin, Hnew. cbn [andb negb].
    assert (Hlen' : length (done ++ [p]) = S (length done))
      by (rewrite length_app; simpl; lia).
    rewrite <- Hlen'. apply IH.
    + rewrite <- app_assoc. exact Hsplit.
    + rewrite Hlen', inject_nat_S, Hs, Hh.
      pose proof (inject_nat_nonneg (length done)). field. lra.
    + rewrite Hlen', inject_nat_S, Hh. reflexivity.
Qed.

(** X4: a prediction list without repeats that consists of relevant items
    only and names them all, within the cutoff, scores exactly 1, in
    whatever order it names them. *)
Theorem apk_all_relevant_scores_1 (actual predicted : list Z) (k : Z)
  (Hne : actual <> [])
  (Hnd : NoDup predicted)
  (Hincl : incl predicted actual)
  (Hall : length actual <= length predicted)
  (Hk : (Z.of_nat (length predicted) <= k)%Z) :
  exists s, apk actual predicted k = Ok s /\ (s == 1)%Q.
Proof.
  pose proof (NoDup_incl_length Hnd Hincl) as Hle.
  assert (Hlen : length predicted = length actual) by lia.
  unfold apk. destruct actual as [|a actual]; [congruence|].
  set (act := a :: actual) in *.
  destruct (Z.gtb_spec (Z.of_nat (length predicted)) k) as [Hgt|_]; [lia|].
  pose proof (apk_loop_all_hits act predicted Hnd Hincl predicted [] 0%Q 0%Q
                eq_refl (Qeq_refl 0) (Qeq_refl 0)) as Hloop.
  change (length (@nil Z)) with 0 in Hloop.
  destruct (apk_loop act predicted 0 predicted 0%Q 0%Q) as [score hits].
  cbn [fst] in Hloop.
  assert (Hpos : (1 <= Z.of_nat (length act))%Z) by (unfold act; simpl length; lia).
  replace (Z.min (Z.of_nat (length act)) k) with (Z.of_nat (length act)) by lia.
  unfold true_div. rewrite Qeq_bool_inject_Z_nonzero by lia.
  eexists. split; [reflexivity|].
  rewrite Hloop, Hlen. 
  assert (Hq : (0 < inject_Z (Z.of_nat (length act)))%Q).
  { change 0%Q with (inject_Z 0). rewrite <- Zlt_Qlt. lia. }
  field. lra.
Qed.

(** Both relevant items predicted, in the other order. *)
Lemma apk_all_relevant_scores_1_witness :
  exists s, apk [1; 2]%Z [2; 1]%Z 25 = Ok s /\ (s == 1)%Q.
Proof.
  apply (apk_all_relevant_scores_1 [1; 2]%Z [2; 1]%Z 25).
  - discriminate.
  - repeat constructor; simpl; intuition discriminate.
  - intros x [<-|[<-|[]]]; simpl; auto.
  - simpl. lia.
  - vm_compute. discriminate.
Defined.

Lemma sumQ_between (xs : list Q) :
  Forall (fun s => 0 <= s /\ s <= 1)%Q xs ->
  (0 <= sumQ xs)%Q /\ (sumQ xs <= inject_Z (Z.of_nat (length xs)))%Q.
Proof.
  induction 1 as [|s xs [Hs0 Hs1] _ [IH0 IH1]].
  - split; apply Qle_refl.
  - unfold sumQ in *. cbn [fold_right length]. rewrite inject_nat_S. split; lra.
Qed.

Lemma mapk_score_range (actual predicted : list (list Z)) (k : Z) :
  (1 <= k)%Z -> combine actual predicted <> [] ->
  exists m, mapk actual predicted k = Ok (Fin m) /\ (0 <= m)%Q /\ (m <= 1)%Q.
Proof.
  intros Hk Hne.
  destruct (comprehension_ok (fun ap => apk (fst ap) (snd ap) k)
              (combine actual predicted)) as [scores [Hc HF]].
  { intros ap _. apply apk_total. lia. }
  assert (Hall : Forall (fun s => 0 <= s /\ s <= 1)%Q scores).
  { clear Hc Hne. revert HF. generalize (combine actual predicted).
    intros pairs HF.
    induction HF as [|ap s l ss Hs _ IH]; constructor; [|exact IH].
    exact (apk_score_range (fst ap) (snd ap) k s Hk Hs). }
  unfold mapk. rewrite Hc. cbn [bind].
  destruct scores as [|s scores].
  - inversion HF as [Hnil|]. congruence.
  - eexists. split; [reflexivity|].
    destruct (sumQ_between _ Hall) as [H0 H1].
    assert (Hpos : (0 < inject_Z (Z.of_nat (length (s :: scores))))%Q).
    { change 0%Q with (inject_Z 0). rewrite <- Zlt_Qlt. simpl length. lia. }
    split.
    + apply Qle_shift_div_l; [assumption | lra].
    + apply Qle_shift_div_r; [assumption | lra].
Qed.

(** X5: for a cutoff [k >= 1] and at least one pair, [mapk] returns a
    finite score between 0 and 1; without any pair it returns nan. *)
Theorem mapk_between_0_and_1 (actual predicted : list (list Z)) (k : Z)
  (Hk : (1 <= k)%Z) :
  (combine actual predicted <> [] ->
   exists m, mapk actual predicted k = Ok (Fin m) /\ (0 <= m)%Q /\ (m <= 1)%Q) /\
  (combine actual predicted = [] -> mapk actual predicted k = Ok NaN).
Proof.
  split.
  - intros Hne. exact (mapk_score_range actual predicted k Hk Hne).
  - intros Hnil. unfold mapk. rewrite Hnil. reflexivity.
Qed.

Lemma mapk_between_0_and_1_witness :
  (1 <= 25)%Z /\
  exists m, mapk [[1]; [2; 3]]%Z [[5; 1]; [3; 9; 2]]%Z 25 = Ok (Fin m)
            /\ (0 <= m)%Q /\ (m <= 1)%Q.
Proof.
  assert (Hk : (1 <= 25)%Z) by (vm_compute; discriminate).
  split; [exact Hk|].
  apply (proj1 (mapk_between_0_and_1 [[1]; [2; 3]]%Z [[5; 1]; [3; 9; 2]]%Z 25 Hk)).
  discriminate.
Defined.

Lemma combine_firstn_min {A B : Type} (l : list A) (l' : list B) :
  combine l l' =
  combine (firstn (Nat.min (length l) (length l')) l)
          (firstn (Nat.min (length l) (length l')) l').
Proof.
  revert l'. induction l as [|a l IH]; intros [|b l']; simpl; try reflexivity.
  now rewrite <- IH.
Qed.

(** X6: [mapk] pairs the two lists up to the shorter one and ignores what
    the longer one has beyond it; unequal lengths raise nothing. *)
Theorem mapk_ignores_unpaired (actual predicted : list (list Z)) (k : Z) :
  mapk actual predicted k =
  mapk (firstn (Nat.min (length actual) (length predicted)) actual)
       (firstn (Nat.min (length actual) (length predicted)) predicted) k.
Proof.
  unfold mapk. now rewrite <- combine_firstn_min.
Qed.

Lemma evaluation_dist_range (predicts : list (list Q))
  (labels data_ids : list Z) :
  length data_ids = length predicts ->
  length predicts = length labels ->
  predicts <> [] ->
  exists m, evaluation_dist predicts labels data_ids = Ok (Fin m) /\
            (- (1) <= m)%Q /\ (m <= 0)%Q.
Proof.
  intros Hids Hlabels Hne.
  set (rank := fun row : list Q => map Z.of_nat (argsort (map Qopp row))).
  destruct (data_frame_columns data_ids (map rank predicts) labels)
    as [frame [Hframe [_ [Hcol_p _]]]].
  { now rewrite length_map. }
  { now rewrite length_map. }
  unfold evaluation_dist. rewrite map_map. fold rank. rewrite Hframe. cbn [bind].
  assert (Hkept : drop_duplicates frame <> []).
  { unfold drop_duplicates. destruct frame as [|r frame].
    - destruct predicts; [congruence | discriminate].
    - simpl. discriminate. }
  destruct (mapk_score_range
              (map (fun data => [data]) (map df_label (drop_duplicates frame)))
              (map df_predict (drop_duplicates frame)) 25)
    as [m [Hm [H0 H1]]].
  { lia. }
  { rewrite combine_label_predict.
    destruct (drop_duplicates frame); [congruence | discriminate]. }
  rewrite Hm. cbn [bind neg]. eexists. split; [reflexivity|]. split; lra.
Qed.

(** X7: with columns of one length and at least one gathered record, the
    evaluator returns a finite number between -1 and 0, so a lower value is
    a better ranking and 0 is the worst; with no record at all it returns
    nan. *)
Theorem evaluation_dist_between (predicts : list (list Q))
  (labels data_ids : list Z)
  (Hids : length data_ids = length predicts)
  (Hlabels : length predicts = length labels) :
  (predicts <> [] ->
   exists m, evaluation_dist predicts labels data_ids = Ok (Fin m) /\
             (- (1) <= m)%Q /\ (m <= 0)%Q) /\
  (predicts = [] -> evaluation_dist predicts labels data_ids = Ok NaN).
Proof.
  split.
  - intros Hne. exact (evaluation_dist_range predicts labels data_ids
                         Hids Hlabels Hne).
  - intros ->. destruct data_ids; [|discriminate].
    destruct labels; [reflexivity | discriminate].
Qed.

Lemma evaluation_dist_between_witness :
  exists m,
    evaluation_dist [[1 # 10; 9 # 10; 5 # 10]; [3; 2; 1]]%Q [2; 0]%Z [10; 11]%Z
    = Ok (Fin m) /\ (- (1) <= m)%Q /\ (m <= 0)%Q.
Proof.
  apply (proj1 (evaluation_dist_between
                  [[1 # 10; 9 # 10; 5 # 10]; [3; 2; 1]]%Q [2; 0]%Z [10; 11]%Z
                  eq_refl eq_refl)).
  discriminate.
Defined.

(** ** The dataset as a sequence *)

Lemma list_item_ok {A : Type} (l : list A) (idx : Z) :
  (- Z.of_nat (length l) <= idx < Z.of_nat (length l))%Z ->
  exists a, list_item l idx = Ok a /\ In a l.
Proof.
  intros Hr. unfold list_item.
  destruct (Z.ltb_spec idx (- Z.of_nat (length l))); [lia|].
  destruct (Z.leb_spec (Z.of_nat (length l)) idx); [lia|]. cbn [orb].
  set (i := Z.to_nat (if (idx <? 0)%Z then idx + Z.of_nat (length l) else idx)%Z).
  assert (Hi : i < length l).
  { unfold i. destruct (Z.ltb_spec idx 0); lia. }
  destruct (nth_error l i) as [a|] eqn:E.
  - exists a. split; [reflexivity | eapply nth_error_In; eassumption].
  - apply nth_error_None in E. lia.
Qed.


(** The example constructor never raises, in either mode; the label is below
    25, or 999 at test time; the sequence ends with the end-of-sequence id. *)
Lemma create_example_returns (tokenizer : Tokenizer) (is_test : bool)
  (data : Row) (g : rng) :
  exists tokens label,
    fst (create_example tokenizer is_test data g)
    = Ok (tokens ++ [eos_token_id tokenizer], label, data_id data) /\
    ((0 <= label < 25)%Z \/ (is_test = true /\ label = 999%Z)).
Proof.
  rewrite create_example_unfold. cbn [fst].
  rewrite (label_and_text_spec is_test data _
             (presented_fits_alphabet is_test data g)).
  pose proof (length_presented is_test data g) as Hlen.
  destruct (last_index_of (answer_text data)
              (fst (presented_options is_test data g))) as [i|] eqn:E.
  - destruct (last_index_of_Some _ _ _ E) as [_ [Hlt _]].
    do 2 eexists. split; [reflexivity|]. cbn [fst snd]. left. lia.
  - destruct is_test.
    + do 2 eexists. split; [reflexivity|]. cbn [fst snd].
      right. split; reflexivity.
    + apply last_index_of_None in E. exfalso. apply E.
      apply training_answer_presented.
Qed.

Lemma torch_long_ok (x : Z) : in_int64 x = true -> torch_long x = Ok x.
Proof. intros H. unfold torch_long. now rewrite H. Qed.

Lemma torch_long_list_ok (l : list Z) :
  forallb in_int64 l = true -> torch_long_list l = Ok l.
Proof.
  unfold torch_long_list. induction l as [|x l IH]; intros H; simpl in *.
  - reflexivity.
  - apply andb_true_iff in H. destruct H as [Hx Hl].
    rewrite (torch_long_ok x Hx). cbn [bind]. now rewrite (IH Hl).
Qed.

Lemma torch_long_list_raises (l : list Z) :
  forallb in_int64 l = false -> torch_long_list l = Raise RuntimeError.
Proof.
  unfold torch_long_list. induction l as [|x l IH]; intros H; simpl in *.
  - discriminate.
  - unfold torch_long at 1. destruct (in_int64 x); [|reflexivity].
    cbn [bind andb] in *. now rewrite (IH H).
Qed.

(** One item, opened up: the example first, then the three conversions. *)
Lemma getitem_at (self : qWenSFTDataset) (idx : Z) (g : rng) (data : Row) :
  list_item (ds_datas self) idx = Ok data ->
  exists tokens label,
    fst (create_example (ds_tokenizer self) (ds_is_test self) data g)
    = Ok (tokens ++ [eos_token_id (ds_tokenizer self)], label, data_id data) /\
    ((0 <= label < 25)%Z \/ (ds_is_test self = true /\ label = 999%Z)) /\
    fst (__getitem__ self idx g) =
    if forallb in_int64 (tokens ++ [eos_token_id (ds_tokenizer self)])
       && in_int64 (data_id data)
    then Ok {| input_ids := tokens ++ [eos_token_id (ds_tokenizer self)];
               labels := label;
               data_ids := data_id data |}
    else Raise RuntimeError.
Proof.
  intros Hd. unfold __getitem__. rewrite Hd.
  destruct (create_example_returns (ds_tokenizer self) (ds_is_test self) data g)
    as [tokens [label [Hc Hl]]].
  exists tokens, label. split; [exact Hc | split; [exact Hl|]].
  destruct (create_example (ds_tokenizer self) (ds_is_test self) data g)
    as [r g']. cbn [fst] in *. rewrite Hc. cbn [bind].
  assert (Hlabel : in_int64 label = true).
  { unfold in_int64. apply andb_true_iff.
    rewrite Z.leb_le, Z.ltb_lt.
    assert (H63 : (2 ^ 63 = 9223372036854775808)%Z) by reflexivity.
    destruct Hl as [Hl|[_ ->]]; lia. }
  destruct (forallb in_int64 (tokens ++ [eos_token_id (ds_tokenizer self)]))
    eqn:Etok.
  - rewrite (torch_long_list_ok _ Etok). cbn [bind andb].
    rewrite (torch_long_ok _ Hlabel). cbn [bind].
    unfold torch_long. destruct (in_int64 (data_id data)); reflexivity.
  - rewrite (torch_long_list_raises _ Etok). reflexivity.
Qed.



(** X9: at a valid index of a training dataset whose identifiers and token
    ids fit 64 bits, the item is returned; its label is in [0, 25), a valid
    class for the 25 letter logits, its identifier is that of one of the
    rows, and its token sequence ends with the end-of-sequence id. *)
Theorem training_item_label_is_a_class (self : qWenSFTDataset) (idx : Z)
  (g : rng)
  (Htrain : ds_is_test self = false)
  (Hidx : (- Z.of_nat (__len__ self) <= idx < Z.of_nat (__len__ self))%Z)
  (Hids : forall data, In data (ds_datas self) -> in_int64 (data_id data) = true)
  (Htokens : forall text,
      forallb in_int64 (tokenize (ds_tokenizer self) text) = true)
  (Heos : in_int64 (eos_token_id (ds_tokenizer self)) = true) :
  exists item tokens,
    fst (__getitem__ self idx g) = Ok item /\
    (0 <= labels item < 25)%Z /\
    In (data_ids item) (map data_id (ds_datas self)) /\
    input_ids item = tokens ++ [eos_token_id (ds_tokenizer self)].
Proof.
  unfold __len__ in Hidx.
  destruct (list_item_ok (ds_datas self) idx Hidx) as [data [Hd Hin]].
  destruct (getitem_at self idx g data Hd) as [tokens [label [Hc [Hl Hg]]]].
  assert (Htok : forallb in_int64 (tokens ++ [eos_token_id (ds_tokenizer self)])
                 = true).
  { pose proof (create_example_unfold (ds_tokenizer self) (ds_is_test self)
                  data g) as Hu.
    apply (f_equal fst) in Hu. cbn [fst] in Hu. rewrite Hc in Hu.
    destruct (label_and_text (ds_is_test self) data
                (fst (presented_options (ds_is_test self) data g)))
      as [[l t]|e]; cbn [bind fst snd] in Hu; [|discriminate].
    injection Hu as Hids' _. rewrite Hids'.
    rewrite forallb_app, Htokens. cbn. now rewrite Heos. }
  rewrite Htok, (Hids data Hin) in Hg. cbn [andb] in Hg.
  eexists. exists tokens. split; [exact Hg|]. cbn.
  split; [|split; [now apply in_map | reflexivity]].
  destruct Hl as [Hl|[Ht _]]; [exact Hl | congruence].
Qed.

Lemma char_tokenizer_fits (text : string) :
  forallb in_int64 (tokenize char_tokenizer text) = true.
Proof.
  cbn [tokenize char_tokenizer]. apply forallb_forall. intros x Hx.
  apply in_map_iff in Hx. destruct Hx as [c [<- _]].
  pose proof (nat_ascii_bounded c) as Hc.
  unfold in_int64. apply andb_true_iff. rewrite Z.leb_le, Z.ltb_lt.
  assert (H63 : (2 ^ 63 = 9223372036854775808)%Z) by reflexivity. lia.
Qed.

Lemma training_item_label_is_a_class_witness :
  exists item,
    fst (__getitem__
           {| ds_tokenizer := char_tokenizer; ds_max_prompt_len := 500;
              ds_max_completion_len := 500; ds_is_test := false;
              ds_datas := [ {| prompt := "Q"; answer_text := "c";
                               or_recall_texts := ["a"; "b"]%string;
                               data_id := 1 |} ] |}
           (-1) [4; 2]) = Ok item /\
    (0 <= labels item < 25)%Z.
Proof.
  destruct (training_item_label_is_a_class
              {| ds_tokenizer := char_tokenizer; ds_max_prompt_len := 500;
                 ds_max_completion_len := 500; ds_is_test := false;
                 ds_datas := [ {| prompt := "Q"; answer_text := "c";
                                  or_recall_texts := ["a"; "b"]%string;
                                  data_id := 1 |} ] |}
              (-1) [4; 2] eq_refl)
    as [item [tokens [Hi [Hl _]]]].
  - simpl. lia.
  - intros data [<-|[]]. reflexivity.
  - exact char_tokenizer_fits.
  - reflexivity.
  - exists item. split; assumption.
Defined.

(** X10: no option is made up: in training every presented option other
    than the answer is one of the row's first 50 candidates and differs from
    the answer; at test time every option is one of the first 25. *)
Theorem options_come_from_candidates (data : Row) (g : rng) :
  (forall text,
      In text (fst (presented_options false data g)) ->
      text = answer_text data \/
      (In text (firstn 50 (or_recall_texts data)) /\ text <> answer_text data)) /\
  (forall text,
      In text (fst (presented_options true data g)) ->
      In text (firstn 25 (or_recall_texts data))).
Proof.
  split.
  - intros text Hin.
    destruct (presented_options_training data g) as [shuffled [g1 [Hsh Hopts]]].
    pose proof (shuffle_perm (distractor_pool data) g) as Hp.
    rewrite Hsh in Hp. cbn [fst] in Hp.
    rewrite Hopts in Hin.
    apply (Permutation_in _ (shuffle_perm _ g1)) in Hin.
    apply in_app_or in Hin.
    destruct Hin as [Hin|[<-|[]]]; [right | now left].
    assert (Hs : In text shuffled).
    { rewrite <- (firstn_skipn 24 shuffled). apply in_or_app. now left. }
    apply (Permutation_in _ Hp) in Hs. unfold distractor_pool in Hs.
    apply filter_In in Hs. destruct Hs as [Hc Hne]. split; [assumption|].
    intros ->. rewrite String.eqb_refl in Hne. discriminate.
  - intros text Hin. now rewrite presented_options_test in Hin.
Qed.

Lemma options_come_from_candidates_witness :
  In "a"%string (firstn 25 ["a"; "b"]%string).
Proof.
  apply (proj2 (options_come_from_candidates
                  {| prompt := "Q"; answer_text := "c";
                     or_recall_texts := ["a"; "b"]%string; data_id := 1 |} [])).
  simpl. now left.
Defined.

(** ** Where the logits are read *)

Lemma sequence_length_formula (row : list Z) (pad_token_id : Z) :
  row <> [] ->
  train_sequence_length row pad_token_id =
  Ok ((match index_of pad_token_id row with
       | Some p => Z.of_nat p
       | None => 0
       end - 1) mod Z.of_nat (length row))%Z.
Proof.
  intros Hrow. unfold train_sequence_length.
  rewrite (argmax_first_pad row _ Hrow). cbn [bind].
  destruct (index_of pad_token_id row); reflexivity.
Qed.

Lemma eval_sequence_length_same (row : list Z) (pad_token_id : Z) :
  eval_sequence_length row pad_token_id = train_sequence_length row pad_token_id.
Proof. reflexivity. Qed.

(** X11: on a non-empty row the extraction index is a valid position of the
    row, so the gather that follows cannot index out of range. *)
Theorem sequence_length_in_range (row : list Z) (pad_token_id : Z)
  (Hrow : row <> []) :
  exists i,
    train_sequence_length row pad_token_id = Ok i /\
    eval_sequence_length row pad_token_id = Ok i /\
    (0 <= i < Z.of_nat (length row))%Z.
Proof.
  pose proof (sequence_length_formula row pad_token_id Hrow) as Ht.
  eexists. split; [exact Ht | split; [rewrite eval_sequence_length_same; exact Ht|]].
  apply Z.mod_pos_bound. destruct row; [congruence | simpl length; lia].
Qed.

Lemma sequence_length_in_range_witness :
  exists i,
    train_sequence_length [4; 4; 4]%Z 9 = Ok i /\
    eval_sequence_length [4; 4; 4]%Z 9 = Ok i /\
    (0 <= i < 3)%Z.
Proof.
  apply (sequence_length_in_range [4; 4; 4]%Z 9). discriminate.
Defined.

(** X12: the two rows on which the index wraps around: a row without any pad
    token and a row that starts with the pad token both give the last
    position of the row. *)
Theorem sequence_length_wraps (row : list Z) (pad_token_id : Z)
  (Hrow : row <> [])
  (Hedge : ~ In pad_token_id row \/ nth_error row 0 = Some pad_token_id) :
  train_sequence_length row pad_token_id = Ok (Z.of_nat (length row) - 1)%Z.
Proof.
  rewrite (sequence_length_formula row pad_token_id Hrow).
  assert (Hlen : (0 < Z.of_nat (length row))%Z)
    by (destruct row; [congruence | simpl length; lia]).
  assert (Hfirst : match index_of pad_token_id row with
                   | Some p => Z.of_nat p | None => 0%Z end = 0%Z).
  { destruct Hedge as [Hout|Hhead].
    - apply index_of_None in Hout. now rewrite Hout.
    - destruct row as [|t row]; [discriminate|]. simpl in Hhead.
      injection Hhead as ->. simpl. now rewrite Z.eqb_refl. }
  rewrite Hfirst. f_equal.
  replace (0 - 1)%Z with (-1 + 1 * 0)%Z by lia.
  rewrite <- (Z.mod_add (-1 + 1 * 0) 1 (Z.of_nat (length row))) by lia.
  rewrite Z.mod_small; lia.
Qed.

Lemma sequence_length_wraps_witness :
  train_sequence_length [2; 5; 6; 2]%Z 2 = Ok 3%Z.
Proof.
  apply (sequence_length_wraps [2; 5; 6; 2]%Z 2); [discriminate|].
  right. reflexivity.
Defined.

Lemma index_of_app_first (x : Z) (tokens rest : list Z) :
  ~ In x tokens -> index_of x (tokens ++ x :: rest) = Some (length tokens).
Proof.
  induction tokens as [|t tokens IH]; intros Hout; simpl.
  - now rewrite Z.eqb_refl.
  - destruct (Z.eqb_spec t x) as [->|Hne]; [exfalso; apply Hout; now left|].
    rewrite IH; [reflexivity|]. intros Hin. apply Hout. now right.
Qed.

(** The collated batch, row by row. *)
Lemma collate_fn_rows (tokenizer : Tokenizer) (instances : list Instance) :
  instances <> [] ->
  exists max_len,
    Forall (fun inst => length (input_ids inst) <= max_len) instances /\
    collate_fn tokenizer instances =
    Ok {| batch_input_ids :=
            map (fun inst =>
                   input_ids inst
                   ++ repeat (eos_token_id tokenizer)
                        (max_len - length (input_ids inst)))
                instances;
          batch_labels := map labels instances;
          batch_data_ids := map data_ids instances |}.
Proof.
  intros Hne.
  destruct (padding_spec (map input_ids instances) (eos_token_id tokenizer))
    as [max_len [_ [Hall [_ Hpad]]]].
  { destruct instances; [congruence | discriminate]. }
  exists max_len. rewrite Forall_map in Hall. split; [exact Hall|].
  unfold collate_fn. rewrite Hpad. cbn [bind]. now rewrite map_map.
Qed.

(** X13: padding does not move the reading point.  In a collated batch, for
    every instance made of some tokens free of the end-of-sequence id
    followed by that id, the extraction index of its row is the position of
    the last of those tokens, however long the other sequences are. *)
Theorem collated_row_reads_last_token (tokenizer : Tokenizer)
  (instances : list Instance) (i : nat) (inst : Instance) (tokens : list Z)
  (Hi : nth_error instances i = Some inst)
  (Hshape : input_ids inst = tokens ++ [eos_token_id tokenizer])
  (Htokens : tokens <> [])
  (Hfree : ~ In (eos_token_id tokenizer) tokens) :
  exists batch row,
    collate_fn tokenizer instances = Ok batch /\
    nth_error (batch_input_ids batch) i = Some row /\
    train_sequence_length row (eos_token_id tokenizer)
    = Ok (Z.of_nat (length tokens) - 1)%Z /\
    eval_sequence_length row (eos_token_id tokenizer)
    = Ok (Z.of_nat (length tokens) - 1)%Z /\
    nth_error row (length tokens - 1) = nth_error tokens (length tokens - 1).
Proof.
  assert (Hne : instances <> []) by (destruct instances, i; discriminate).
  destruct (collate_fn_rows tokenizer instances Hne) as [max_len [Hall Hc]].
  set (row := input_ids inst
              ++ repeat (eos_token_id tokenizer)
                   (max_len - length (input_ids inst))).
  eexists. exists row. split; [exact Hc|]. cbn [batch_input_ids].
  split.
  { exact (map_nth_error
             (fun inst => input_ids inst
                          ++ repeat (eos_token_id tokenizer)
                               (max_len - length (input_ids inst)))
             i instances Hi). }
  assert (Hrow_eq : row = tokens ++ eos_token_id tokenizer
                                :: repeat (eos_token_id tokenizer)
                                     (max_len - length (input_ids inst))).
  { unfold row. rewrite Hshape, <- app_assoc. reflexivity. }
  assert (Hlt : 0 < length tokens) by (destruct tokens; [congruence | simpl; lia]).
  assert (Hrne : row <> []) by (rewrite Hrow_eq; destruct tokens; discriminate).
  assert (Ht : train_sequence_length row (eos_token_id tokenizer)
               = Ok (Z.of_nat (length tokens) - 1)%Z).
  { rewrite (sequence_length_formula row _ Hrne).
    rewrite Hrow_eq at 1. rewrite index_of_app_first by assumption.
    f_equal. apply Z.mod_small. rewrite Hrow_eq, length_app. simpl length. lia. }
  split; [exact Ht | split; [rewrite eval_sequence_length_same; exact Ht|]].
  rewrite Hrow_eq. apply nth_error_app1. lia.
Qed.

Lemma collated_row_reads_last_token_witness :
  exists batch row,
    collate_fn char_tokenizer
      [ {| input_ids := [11; 12; 13; 0]%Z; labels := 4; data_ids := 100 |};
        {| input_ids := [21; 0]%Z; labels := 0; data_ids := 101 |} ]
    = Ok batch /\
    nth_error (batch_input_ids batch) 1 = Some row /\
    eval_sequence_length row 0 = Ok 0%Z.
Proof.
  destruct (collated_row_reads_last_token char_tokenizer
              [ {| input_ids := [11; 12; 13; 0]%Z; labels := 4; data_ids := 100 |};
                {| input_ids := [21; 0]%Z; labels := 0; data_ids := 101 |} ]
              1 {| input_ids := [21; 0]%Z; labels := 0; data_ids := 101 |}
              [21%Z] eq_refl eq_refl)
    as [batch [row [Hc [Hr [_ [He _]]]]]].
  - discriminate.
  - simpl. intros [H|[]]. discriminate.
  - exists batch, row. split; [exact Hc | split; [exact Hr | exact He]].
Defined.

(** X14: the collator fails exactly on the empty batch, with the ValueError
    of [max] over no lengths. *)
Theorem collate_fn_raises_iff (tokenizer : Tokenizer) (instances : list Instance) :
  (forall e, collate_fn tokenizer instances = Raise e -> e = ValueError) /\
  ((exists e, collate_fn tokenizer instances = Raise e) <-> instances = []).
Proof.
  destruct instances as [|inst instances].
  - split; [intros e He; cbv in He; congruence|].
    split; [reflexivity | intros _; eexists; reflexivity].
  - destruct (collate_fn_rows tokenizer (inst :: instances))
      as [max_len [_ Hc]]; [discriminate|].
    rewrite Hc. split; [discriminate|].
    split; [intros [e He]; discriminate | discriminate].
Qed.

Lemma collate_fn_raises_iff_witness :
  exists e, collate_fn char_tokenizer [] = Raise e.
Proof.
  apply (proj2 (collate_fn_raises_iff char_tokenizer [])). reflexivity.
Defined.

(** ** Deduplication and scoring *)

Lemma drop_duplicates_from_ids (df : list Prediction) :
  forall seen i,
    In i (map df_data_id (drop_duplicates_from seen df)) <->
    In i (map df_data_id df) /\ ~ In i seen.
Proof.
  induction df as [|r df IH]; intros seen i; simpl.
  - tauto.
  - destruct (py_in (df_data_id r) seen) eqn:E.
    + apply py_in_In in E. rewrite IH. split.
      * tauto.
      * intros [[<-|Hin] Hs]; tauto.
    + apply py_in_not_In in E. simpl. rewrite IH. simpl.
      destruct (Z.eq_dec (df_data_id r) i) as [Heq|Hne].
      * subst i. split; [intros _; split; [now left | assumption] | now left].
      * tauto.
Qed.

Lemma drop_duplicates_from_app (df1 df2 : list Prediction) :
  forall seen,
    drop_duplicates_from seen (df1 ++ df2) =
    drop_duplicates_from seen df1
    ++ drop_duplicates_from (rev (map df_data_id (drop_duplicates_from seen df1))
                             ++ seen) df2.
Proof.
  induction df1 as [|r df1 IH]; intros seen; simpl.
  - reflexivity.
  - destruct (py_in (df_data_id r) seen).
    + apply IH.
    + simpl. rewrite IH. f_equal. f_equal. f_equal.
      rewrite <- app_assoc. reflexivity.
Qed.

Lemma drop_duplicates_from_all_seen (df : list Prediction) (seen : list Z) :
  (forall r, In r df -> In (df_data_id r) seen) ->
  drop_duplicates_from seen df = [].
Proof.
  induction df as [|r df IH]; intros Hall; simpl; [reflexivity|].
  assert (E : py_in (df_data_id r) seen = true)
    by (apply py_in_In, Hall; now left).
  rewrite E. apply IH. intros r' Hr'. apply Hall. now right.
Qed.

Lemma drop_duplicates_from_NoDup_id (df : list Prediction) :
  forall seen,
    NoDup (map df_data_id df) ->
    (forall r, In r df -> ~ In (df_data_id r) seen) ->
    drop_duplicates_from seen df = df.
Proof.
  induction df as [|r df IH]; intros seen Hnd Hfresh; simpl; [reflexivity|].
  assert (E : py_in (df_data_id r) seen = false)
    by (apply py_in_not_In, Hfresh; now left).
  rewrite E. f_equal. simpl in Hnd. inversion Hnd as [|? ? Hr Hnd']; subst.
  apply IH; [assumption|]. intros r' Hr' [Heq|Hs].
  - apply Hr. rewrite Heq. now apply in_map.
  - apply (Hfresh r'); [now right | assumption].
Qed.

(** X15: deduplication loses no identifier and repeats none: the kept
    records carry exactly the identifiers of the frame, each once; a frame
    without repeated identifiers is returned as it is, so deduplicating
    twice changes nothing more. *)
Theorem drop_duplicates_ids (df : list Prediction) :
  NoDup (map df_data_id (drop_duplicates df)) /\
  (forall i, In i (map df_data_id (drop_duplicates df))
             <-> In i (map df_data_id df)) /\
  (NoDup (map df_data_id df) -> drop_duplicates df = df) /\
  drop_duplicates (drop_duplicates df) = drop_duplicates df.
Proof.
  assert (Hnd : NoDup (map df_data_id (drop_duplicates df)))
    by apply drop_duplicates_from_NoDup.
  assert (Hid : forall f, NoDup (map df_data_id f) -> drop_duplicates f = f).
  { intros f Hf. apply drop_duplicates_from_NoDup_id; [assumption|].
    intros r _ []. }
  split; [exact Hnd | split; [|split]].
  - intros i. unfold drop_duplicates. rewrite drop_duplicates_from_ids.
    simpl. tauto.
  - apply Hid.
  - apply Hid, Hnd.
Qed.

Lemma drop_duplicates_ids_witness :
  drop_duplicates
    [ {| df_data_id := 1; df_predict := [0]%Z; df_label := 0 |};
      {| df_data_id := 2; df_predict := [0]%Z; df_label := 0 |} ]
  = [ {| df_data_id := 1; df_predict := [0]%Z; df_label := 0 |};
      {| df_data_id := 2; df_predict := [0]%Z; df_label := 0 |} ].
Proof.
  apply (proj1 (proj2 (proj2 (drop_duplicates_ids _)))).
  repeat constructor; simpl; intuition discriminate.
Defined.

Lemma combine_app_same_length {A B : Type} (l1 l2 : list A) (m1 m2 : list B) :
  length l1 = length m1 ->
  combine (l1 ++ l2) (m1 ++ m2) = combine l1 m1 ++ combine l2 m2.
Proof.
  revert m1. induction l1 as [|a l1 IH]; intros [|b m1] Hlen; simpl in *;
    try discriminate; [reflexivity|].
  f_equal. apply IH. lia.
Qed.

Lemma data_frame_app (ids1 ids2 : list Z) (p1 p2 : list (list Z))
  (l1 l2 : list Z) (f1 f2 : list Prediction) :
  data_frame ids1 p1 l1 = Ok f1 ->
  data_frame ids2 p2 l2 = Ok f2 ->
  data_frame (ids1 ++ ids2) (p1 ++ p2) (l1 ++ l2) = Ok (f1 ++ f2).
Proof.
  unfold data_frame. intros H1 H2.
  destruct ((length ids1 =? length p1) && (length p1 =? length l1)) eqn:E1;
    [|discriminate].
  destruct ((length ids2 =? length p2) && (length p2 =? length l2)) eqn:E2;
    [|discriminate].
  apply andb_true_iff in E1, E2. rewrite !Nat.eqb_eq in E1, E2.
  destruct E1 as [Ea Eb], E2 as [Ec Ed].
  rewrite !length_app, Ea, Eb, Ec, Ed, !Nat.eqb_refl. cbn [andb].
  injection H1 as <-. injection H2 as <-.
  rewrite <- map_app. f_equal. f_equal.
  rewrite (combine_app_same_length p1 p2 l1 l2 Eb).
  rewrite combine_app_same_length; [reflexivity|].
  rewrite length_combine. lia.
Qed.

(** X16: records gathered again do not change the score.  Appending to the
    gathered arrays any records whose identifiers all occurred already
    leaves the evaluator's result as it was. *)
Theorem evaluation_dist_ignores_repeats
  (predicts more_predicts : list (list Q))
  (labels more_labels data_ids more_ids : list Z)
  (Hids : length data_ids = length predicts)
  (Hlabels : length predicts = length labels)
  (Hmore_ids : length more_ids = length more_predicts)
  (Hmore_labels : length more_predicts = length more_labels)
  (Hseen : incl more_ids data_ids) :
  evaluation_dist (predicts ++ more_predicts) (labels ++ more_labels)
                  (data_ids ++ more_ids)
  = evaluation_dist predicts labels data_ids.
Proof.
  set (rank := fun row : list Q => map Z.of_nat (argsort (map Qopp row))).
  destruct (data_frame_columns data_ids (map rank predicts) labels)
    as [f1 [Hf1 [Hc1 _]]]; try (now rewrite length_map).
  destruct (data_frame_columns more_ids (map rank more_predicts) more_labels)
    as [f2 [Hf2 [Hc2 _]]]; try (now rewrite length_map).
  unfold evaluation_dist. rewrite !map_map. fold rank.
  rewrite map_app, (data_frame_app _ _ _ _ _ _ _ _ Hf1 Hf2), Hf1. cbn [bind].
  assert (Hdrop : drop_duplicates (f1 ++ f2) = drop_duplicates f1).
  { unfold drop_duplicates. rewrite drop_duplicates_from_app.
    rewrite (drop_duplicates_from_all_seen f2); [apply app_nil_r|].
    intros r Hr. rewrite app_nil_r, <- in_rev.
    apply (drop_duplicates_from_ids f1 [] (df_data_id r)). split; [|tauto].
    rewrite Hc1. apply Hseen. rewrite <- Hc2. now apply in_map. }
  now rewrite Hdrop.
Qed.

(** The first record gathered a second time. *)
Lemma evaluation_dist_ignores_repeats_witness :
  evaluation_dist ([[1 # 2; 1 # 3]; [0; 1]] ++ [[1 # 3; 1 # 2]])%Q
                  ([0; 0] ++ [0])%Z ([10; 11] ++ [10])%Z
  = evaluation_dist [[1 # 2; 1 # 3]; [0; 1]]%Q [0; 0]%Z [10; 11]%Z.
Proof.
  apply (evaluation_dist_ignores_repeats
           [[1 # 2; 1 # 3]; [0; 1]]%Q [[1 # 3; 1 # 2]]%Q
           [0; 0]%Z [0]%Z [10; 11]%Z [10]%Z eq_refl eq_refl eq_refl eq_refl).
  intros x [<-|[]]. simpl. now left.
Defined.

Lemma evaluation_dist_returns (predicts : list (list Q))
  (labels data_ids : list Z) :
  length data_ids = length predicts ->
  length predicts = length labels ->
  exists v, evaluation_dist predicts labels data_ids = Ok v.
Proof.
  intros H1 H2.
  set (rank := fun row : list Q => map Z.of_nat (argsort (map Qopp row))).
  destruct (data_frame_columns data_ids (map rank predicts) labels)
    as [frame [Hframe _]]; try (now rewrite length_map).
  unfold evaluation_dist. rewrite map_map. fold rank. rewrite Hframe.
  cbn [bind]. unfold mapk.
  destruct (comprehension_ok (fun ap => apk (fst ap) (snd ap) 25)
              (combine (map (fun data => [data])
                            (map df_label (drop_duplicates frame)))
                       (map df_predict (drop_duplicates frame))))
    as [scores [Hc _]].
  { intros ap _. apply apk_total. discriminate. }
  rewrite Hc. cbn [bind]. eexists. reflexivity.
Qed.

(** X17: the evaluator's scoring tail fails exactly when the three gathered
    columns are not of one length, with the ValueError of the data frame. *)
Theorem evaluation_dist_raises_iff (predicts : list (list Q))
  (labels data_ids : list Z) :
  (forall e, evaluation_dist predicts labels data_ids = Raise e
             -> e = ValueError) /\
  ((exists e, evaluation_dist predicts labels data_ids = Raise e) <->
   ~ (length data_ids = length predicts /\ length predicts = length labels)).
Proof.
  destruct (Nat.eq_dec (length data_ids) (length predicts)) as [H1|H1];
    [destruct (Nat.eq_dec (length predicts) (length labels)) as [H2|H2]|].
  - destruct (evaluation_dist_returns predicts labels data_ids H1 H2) as [v He].
    rewrite He. split; [discriminate|].
    split; [intros [e Hr]; discriminate | tauto].
  - assert (Hr : evaluation_dist predicts labels data_ids = Raise ValueError).
    { unfold evaluation_dist, data_frame. rewrite !length_map.
      apply Nat.eqb_neq in H2. rewrite H2, andb_false_r. reflexivity. }
    rewrite Hr. split; [intros e He; congruence|].
    split; [tauto | intros _; eexists; reflexivity].
  - assert (Hr : evaluation_dist predicts labels data_ids = Raise ValueError).
    { unfold evaluation_dist, data_frame. rewrite !length_map.
      apply Nat.eqb_neq in H1. rewrite H1. reflexivity. }
    rewrite Hr. split; [intros e He; congruence|].
    split; [tauto | intros _; eexists; reflexivity].
Qed.

Lemma evaluation_dist_raises_iff_witness :
  exists e, evaluation_dist [[1; 2]]%Q [0; 1]%Z [10]%Z = Raise e.
Proof.
  apply (proj2 (evaluation_dist_raises_iff [[1; 2]]%Q [0; 1]%Z [10]%Z)).
  simpl. intros [_ H]. discriminate.
Defined.

(** X18: a record labelled with the sentinel 999 scores 0 whenever it ranks
    at most 999 options: the test rows whose answer was not among the
    presented candidates count as misses. *)
Theorem sentinel_label_scores_0 (row : list Q) (Hrow : length row <= 999) :
  exists s,
    apk [999%Z] (map Z.of_nat (argsort (map Qopp row))) 25 = Ok s /\ (s == 0)%Q.
Proof.
  destruct (apk_single 999 (map Z.of_nat (argsort (map Qopp row))) 25)
    as [s [Hs Heq]]; [lia|].
  exists s. split; [exact Hs|]. rewrite Heq. unfold reciprocal_rank.
  assert (Hout : ~ In 999%Z (firstn (Z.to_nat 25)
                               (map Z.of_nat (argsort (map Qopp row))))).
  { intros Hin.
    assert (Hin' : In 999%Z (map Z.of_nat (argsort (map Qopp row)))).
    { rewrite <- (firstn_skipn (Z.to_nat 25) (map _ _)).
      apply in_or_app. now left. }
    apply in_map_iff in Hin'. destruct Hin' as [i [Hi Hr]].
    apply (Permutation_in _ (argsort_perm (map Qopp row))) in Hr.
    apply in_seq in Hr. rewrite length_map in Hr. lia. }
  apply index_of_None in Hout. now rewrite Hout.
Qed.

Lemma sentinel_label_scores_0_witness :
  exists s,
    apk [999%Z] (map Z.of_nat (argsort (map Qopp [3; 1; 2]%Q))) 25 = Ok s
    /\ (s == 0)%Q.
Proof.
  apply (sentinel_label_scores_0 [3; 1; 2]%Q). simpl. lia.
Defined.

(** ** What a checkpoint holds and who writes it *)

(** X19: without a sub-folder name [save_model] does nothing at all; with one,
    every rank saves the tokenizer into the sub-folder, and a rank other
    than 0 does nothing else: it creates no directory and writes no weights. *)
Theorem save_model_other_ranks {tensor : Type} (args : Args)
  (state_dict : list (string * tensor)) :
  save_model args state_dict None = [] /\
  (forall sub,
      In (TokenizerSaved (path_join (output_dir args) sub))
         (save_model args state_dict (Some sub))) /\
  (forall sub ev,
      global_rank args <> 0%Z ->
      In ev (save_model args state_dict (Some sub)) ->
      (exists msg, ev = Printed msg) \/
      ev = TokenizerSaved (path_join (output_dir args) sub)) /\
  (forall sub,
      (0 < global_rank args)%Z ->
      save_model args state_dict (Some sub)
      = [TokenizerSaved (path_join (output_dir args) sub)]).
Proof.
  split; [reflexivity | split; [|split]].
  - intros sub. unfold save_model. apply in_or_app. right. now left.
  - intros sub ev Hrank Hin. unfold save_model, print_rank_0 in Hin.
    destruct (Z.eqb_spec (global_rank args) 0) as [H0|_]; [congruence|].
    destruct (global_rank args <=? 0)%Z; simpl in Hin.
    + destruct Hin as [<-|[<-|[<-|[]]]]; [left | right | left];
        try (eexists; reflexivity); reflexivity.
    + destruct Hin as [<-|[]]. now right.
  - intros sub Hrank. unfold save_model, print_rank_0.
    destruct (Z.eqb_spec (global_rank args) 0) as [H0|_]; [lia|].
    destruct (Z.leb_spec (global_rank args) 0); [lia | reflexivity].
Qed.

Lemma save_model_other_ranks_witness :
  save_model {| output_dir := "out"; global_rank := 3 |}
             [("layers.0.lora_A.weight", 2)]%string (Some "best"%string)
  = [TokenizerSaved "out/best"].
Proof.
  apply (proj2 (proj2 (proj2 (save_model_other_ranks
                                {| output_dir := "out"; global_rank := 3 |}
                                [("layers.0.lora_A.weight", 2)]%string)))
               "best"%string).
  reflexivity.
Defined.

Lemma loaded_final_d_id {V : Type} (d : list (string * V)) :
  NoDup (map fst d) -> loaded_final_d d = d.
Proof.
  unfold loaded_final_d.
  enough (H : forall acc,
             NoDup (map fst acc ++ map fst d) ->
             fold_left (fun acc kv => dict_set acc (fst kv) (snd kv)) d acc
             = acc ++ d)
    by (intros Hnd; apply (H [] Hnd)).
  induction d as [|[k v] d IH]; intros acc Hnd; simpl.
  - now rewrite app_nil_r.
  - simpl in Hnd. rewrite dict_set_fresh.
    + rewrite IH; [now rewrite <- app_assoc|].
      rewrite map_app, <- app_assoc. exact Hnd.
    + apply NoDup_remove_2 in Hnd. intros Hin. apply Hnd.
      apply in_or_app. now left.
Qed.

(** Dropping entries from a dict leaves its keys distinct. *)
Lemma filter_keeps_keys_distinct {V : Type} (keep : string * V -> bool) :
  forall d : list (string * V),
    NoDup (map fst d) -> NoDup (map fst (filter keep d)).
Proof.
  intros d. induction d as [|[k v] d IH]; intros Hkeys; cbn [filter map].
  - constructor.
  - apply NoDup_cons_iff in Hkeys. destruct Hkeys as [Hk Hrest].
    destruct (keep (k, v)); [|now apply IH].
    cbn [map fst]. apply NoDup_cons_iff. split; [|now apply IH].
    intros Hin. apply Hk. apply in_map_iff in Hin.
    destruct Hin as [[k' v'] [Hkk Hf]]. cbn [fst] in Hkk. subst k'.
    apply filter_In in Hf. destruct Hf as [Hd _].
    apply in_map_iff. now exists (k, v').
Qed.

(** X20: a checkpoint survives the round trip: the dict that the lora_path
    branch of [main] rebuilds from the dict written by [save_model] is that
    dict, entry for entry and in order; saving what was loaded writes the
    same file again. *)
Theorem checkpoint_round_trip {V : Type} (state_dict : list (string * V))
  (Hdict : NoDup (map fst state_dict)) :
  loaded_final_d (final_d state_dict) = final_d state_dict /\
  final_d (loaded_final_d (final_d state_dict)) = final_d state_dict.
Proof.
  assert (Hnd : NoDup (map fst (final_d state_dict))).
  { rewrite (final_d_filter state_dict Hdict). now apply filter_keeps_keys_distinct. }
  rewrite (loaded_final_d_id _ Hnd). split; [reflexivity|].
  rewrite (final_d_filter _ Hnd), (final_d_filter _ Hdict).
  clear. induction state_dict as [|[k v] sd IH]; simpl; [reflexivity|].
  destruct (adapter_name k) eqn:E; simpl; [rewrite E; now f_equal | exact IH].
Qed.

Lemma checkpoint_round_trip_witness :
  loaded_final_d (final_d [("embed.weight", 1); ("q.lora_A.weight", 2);
                           ("score.weight", 3)]%string)
  = [("q.lora_A.weight", 2); ("score.weight", 3)]%string.
Proof.
  assert (Hnd : NoDup (map fst [("embed.weight", 1); ("q.lora_A.weight", 2);
                                ("score.weight", 3)]%string))
    by (repeat constructor; simpl; intuition discriminate).
  rewrite (proj1 (checkpoint_round_trip _ Hnd)). reflexivity.
Defined.

(** ** The optimizer's parameter groups *)

Lemma three_way_split {A : Type} (a r b : A -> bool) (l : list A) :
  Permutation
    (filter (fun x => negb (a x) && r x && negb (b x)) l
     ++ filter (fun x => negb (a x) && r x && b x) l
     ++ filter (fun x => a x && r x) l)
    (filter r l).
Proof.
  induction l as [|x l IH]; simpl; [constructor|].
  destruct (a x), (r x), (b x); simpl; try exact IH.
  - (* no decay *)
    rewrite app_assoc. symmetry. apply Permutation_cons_app.
    rewrite <- app_assoc. now symmetry.
  - rewrite app_assoc. symmetry. apply Permutation_cons_app.
    rewrite <- app_assoc. now symmetry.
  - (* lora *)
    symmetry. apply Permutation_cons_app. now symmetry.
  - (* decayed *)
    now apply perm_skip.
Qed.

(** X21: the groups split the trainable parameters: put end to end, the
    groups hold every parameter with [requires_grad] exactly once and no
    frozen one, whatever the names are. *)
Theorem optimizer_groups_partition {T : Type}
  (named_parameters : list (string * Param T)) (weight_decay lora_lr : Q)
  (no_decay_name_list lora_name_list : list string) :
  Permutation
    (concat (map params
               (get_optimizer_grouped_parameters named_parameters weight_decay
                  lora_lr no_decay_name_list lora_name_list)))
    (filter requires_grad (map snd named_parameters)).
Proof.
  pose proof (three_way_split
                (fun np : string * Param T => any_in no_decay_name_list (fst np))
                (fun np => requires_grad (snd np))
                (fun np => any_in lora_name_list (fst np))
                named_parameters) as Hsplit.
  cbv beta in Hsplit.
  apply (Permutation_map snd) in Hsplit. rewrite !map_app in Hsplit.
  assert (Hfilter : map snd (filter (fun np : string * Param T =>
                                       requires_grad (snd np)) named_parameters)
                    = filter requires_grad (map snd named_parameters)).
  { clear. induction named_parameters as [|[n p] l IH]; simpl; [reflexivity|].
    destruct (requires_grad p); simpl; now rewrite IH. }
  rewrite Hfilter in Hsplit.
  unfold get_optimizer_grouped_parameters. cbn [params].
  destruct (map snd (filter (fun np : string * Param T =>
                               negb (any_in no_decay_name_list (fst np))
                               && requires_grad (snd np)
                               && any_in lora_name_list (fst np))
                            named_parameters)) as [|p ps] eqn:E;
    cbn [map concat params]; rewrite ?app_nil_r; try rewrite E in Hsplit;
    exact Hsplit.
Qed.

(** X22: there are two groups or three; the last one always has weight decay
    0 and holds the trainable parameters with a no-decay name; a group with
    a learning rate of its own exists exactly when some trainable parameter
    outside the no-decay names has a LoRA name, and otherwise [lora_lr] is
    not used at all. *)
Theorem optimizer_groups_shape {T : Type}
  (named_parameters : list (string * Param T)) (wd lora_lr : Q)
  (no_decay_name_list lora_name_list : list string) :
  let groups := get_optimizer_grouped_parameters named_parameters wd
                  lora_lr no_decay_name_list lora_name_list in
  (length groups = 2 \/ length groups = 3) /\
  (exists g, last groups g = g /\ In g groups /\
             weight_decay g = 0%Q /\ lr g = None /\
             forall p, In p (params g) <->
                       exists n, In (n, p) named_parameters /\
                                 requires_grad p = true /\
                                 any_in no_decay_name_list n = true) /\
  ((exists g, In g groups /\ lr g <> None) <->
   exists n p, In (n, p) named_parameters /\ requires_grad p = true /\
               any_in no_decay_name_list n = false /\
               any_in lora_name_list n = true) /\
  (forall g, In g groups -> lr g <> None ->
             lr g = Some lora_lr /\ params g <> []).
Proof.
  cbv zeta. unfold get_optimizer_grouped_parameters. cbn [params].
  set (lora_params :=
         filter (fun np : string * Param T =>
                   negb (any_in no_decay_name_list (fst np))
                   && requires_grad (snd np)
                   && any_in lora_name_list (fst np)) named_parameters).
  set (nd_params :=
         filter (fun np : string * Param T =>
                   any_in no_decay_name_list (fst np)
                   && requires_grad (snd np)) named_parameters).
  assert (Hnd : forall p, In p (map snd nd_params) <->
                          exists n, In (n, p) named_parameters /\
                                    requires_grad p = true /\
                                    any_in no_decay_name_list n = true).
  { intros p. rewrite in_map_iff. split.
    - intros [[n p'] [Hp Hin]]. simpl in Hp. subst p'. exists n.
      apply filter_In in Hin. cbn [fst snd] in Hin.
      destruct Hin as [Hin Hc]. apply andb_true_iff in Hc. tauto.
    - intros [n [Hin [Hr Ha]]]. exists (n, p). split; [reflexivity|].
      apply filter_In. cbn [fst snd]. rewrite Hr, Ha. tauto. }
  assert (Hlora : lora_params <> [] <->
                  exists n p, In (n, p) named_parameters /\
                              requires_grad p = true /\
                              any_in no_decay_name_list n = false /\
                              any_in lora_name_list n = true).
  { split.
    - intros Hne. destruct lora_params as [|[n p] rest] eqn:E; [congruence|].
      assert (Hin : In (n, p) lora_params) by (rewrite E; now left).
      apply filter_In in Hin. cbn [fst snd] in Hin. destruct Hin as [Hin Hc].
      apply andb_true_iff in Hc. destruct Hc as [Hc Hl].
      apply andb_true_iff in Hc. destruct Hc as [Ha Hr].
      apply negb_true_iff in Ha. exists n, p. tauto.
    - intros [n [p [Hin [Hr [Ha Hl]]]]] Hnil.
      assert (Hf : In (n, p) lora_params).
      { apply filter_In. cbn [fst snd]. rewrite Hr, Ha, Hl. tauto. }
      rewrite Hnil in Hf. destruct Hf. }
  destruct (map snd lora_params) as [|p0 ps] eqn:E.
  - assert (Hnil : lora_params = []) by (destruct lora_params; [reflexivity | discriminate]).
    split; [now left | split; [|split]].
    + eexists. split; [reflexivity|]. split; [right; now left|].
      cbn. repeat split; try reflexivity; apply Hnd.
    + split.
      * intros [g [[<-|[<-|[]]] Hlr]]; cbn in Hlr; congruence.
      * intros Hex. apply Hlora in Hex. congruence.
    + intros g [<-|[<-|[]]] Hlr; cbn in Hlr; congruence.
  - assert (Hne : lora_params <> []) by (destruct lora_params; discriminate).
    split; [now right | split; [|split]].
    + eexists. split; [reflexivity|]. split; [right; right; now left|].
      cbn. repeat split; try reflexivity; apply Hnd.
    + split.
      * intros _. now apply Hlora.
      * intros _. eexists. split; [right; now left|]. cbn. discriminate.
    + intros g [<-|[<-|[<-|[]]]] Hlr; cbn in Hlr; try congruence.
      cbn. split; [reflexivity | discriminate].
Qed.

(** A bias, a weight with a LoRA name, and a frozen weight. *)
Lemma optimizer_groups_shape_witness :
  exists g,
    In g (get_optimizer_grouped_parameters
            [("layer.bias", {| param_data := 1; requires_grad := true |});
             ("layer.lora_right_weight",
              {| param_data := 2; requires_grad := true |});
             ("embed.weight", {| param_data := 3; requires_grad := false |})]%string
            (1 # 10) (5 # 10000)
            default_no_decay_name_list default_lora_name_list) /\
    lr g <> None.
Proof.
  apply (proj1 (proj2 (proj2 (optimizer_groups_shape
                                [("layer.bias",
                                  {| param_data := 1; requires_grad := true |});
                                 ("layer.lora_right_weight",
                                  {| param_data := 2; requires_grad := true |});
                                 ("embed.weight",
                                  {| param_data := 3; requires_grad := false |})]%string
                                (1 # 10) (5 # 10000)
                                default_no_decay_name_list
                                default_lora_name_list)))).
  exists "layer.lora_right_weight"%string,
         {| param_data := 2; requires_grad := true |}.
  repeat split; simpl; auto.
Defined.

(** ** The letter token ids *)

Lemma comprehension_first_item {A : Type} (f : A -> list Z) (l : list A) :
  (forall a, In a l -> f a <> []) ->
  comprehension (fun a => first_item (f a)) l = Ok (map (fun a => hd 0%Z (f a)) l).
Proof.
  induction l as [|a l IH]; intros Hall; simpl; [reflexivity|].
  destruct (f a) as [|x xs] eqn:E.
  - exfalso. apply (Hall a); [now left | exact E].
  - simpl. rewrite IH; [reflexivity|]. intros b Hb. apply Hall. now right.
Qed.

Lemma comprehension_first_item_empty {A : Type} (f : A -> list Z) (l : list A) :
  (exists a, In a l /\ f a = []) ->
  comprehension (fun a => first_item (f a)) l = Raise IndexError.
Proof.
  induction l as [|a l IH]; intros [b [Hb Hf]]; [destruct Hb|].
  simpl. destruct (f a) as [|x xs] eqn:E; [reflexivity|]. simpl.
  rewrite IH; [reflexivity|]. destruct Hb as [->|Hb]; [congruence|].
  now exists b.
Qed.

Lemma get_list_ascii (s : string) (n : nat) :
  String.get n s = nth_error (list_ascii_of_string s) n.
Proof.
  revert n. induction s as [|c s IH]; intros [|n]; simpl; try reflexivity.
  apply IH.
Qed.

(** X23: the logits are read at the letters the prompt uses.  When each of
    the 52 letters encodes to at least one token, [label_index] is 25 ids,
    the one at position [idx] being the first token of the letter that
    labels option [idx] in the prompt; when any of the 52 letters, even one
    beyond the 25 used, encodes to nothing, building it raises IndexError. *)
Theorem label_index_matches_option_letters (encode : string -> list Z) :
  ((forall c, In c (list_ascii_of_string alphabet) ->
              encode (String c EmptyString) <> []) ->
   exists ids,
     label_index encode = Ok ids /\
     length ids = 25 /\
     forall idx c,
       idx < 25 -> String.get idx alphabet = Some c ->
       exists rest, encode (String c EmptyString) = nth idx ids 0%Z :: rest) /\
  ((exists c, In c (list_ascii_of_string alphabet) /\
              encode (String c EmptyString) = []) ->
   label_index encode = Raise IndexError).
Proof.
  unfold label_index. rewrite label_name_alphabet. split.
  - intros Hall.
    rewrite (comprehension_first_item
               (fun c => encode (String c EmptyString)) _ Hall). cbn [bind].
    eexists. split; [reflexivity|]. split.
    + rewrite length_firstn, length_map. reflexivity.
    + intros idx c Hidx Hget. rewrite get_list_ascii in Hget.
      assert (Hn : nth idx (firstn 25 (map (fun c => hd 0%Z (encode (String c EmptyString)))
                                           (list_ascii_of_string alphabet))) 0%Z
                   = hd 0%Z (encode (String c EmptyString))).
      { apply nth_error_nth. rewrite nth_error_firstn.
        destruct (Nat.ltb_spec idx 25); [|lia].
        exact (map_nth_error (fun c => hd 0%Z (encode (String c EmptyString)))
                 idx _ Hget). }
      rewrite Hn.
      destruct (encode (String c EmptyString)) as [|x xs] eqn:E.
      * exfalso. apply (Hall c); [eapply nth_error_In; eassumption | exact E].
      * now exists xs.
  - intros Hex.
    rewrite (comprehension_first_item_empty
               (fun c => encode (String c EmptyString)) _ Hex).
    reflexivity.
Qed.

(** A tokenizer with one token per letter, the character code. *)
Lemma label_index_matches_option_letters_witness :
  exists ids,
    label_index (fun s => map (fun c => Z.of_nat (nat_of_ascii c))
                              (list_ascii_of_string s)) = Ok ids /\
    length ids = 25.
Proof.
  destruct (proj1 (label_index_matches_option_letters
                     (fun s => map (fun c => Z.of_nat (nat_of_ascii c))
                                   (list_ascii_of_string s))))
    as [ids [Hi [Hl _]]].
  - intros c _. discriminate.
  - exists ids. split; assumption.
Defined.

(** ** The training loop's bookkeeping *)

Lemma evaluated_app (l l' : list loop_event) :
  evaluated (l ++ l') = evaluated l ++ evaluated l'.
Proof.
  induction l as [|e l IH]; simpl; [reflexivity|].
  destruct e; simpl; now rewrite IH.
Qed.

Lemma float_lt_spec (x : npfloat) (best : Q) :
  float_lt x best = true <-> exists q, x = Fin q /\ (q < best)%Q.
Proof.
  destruct x as [q|]; simpl.
  - rewrite negb_true_iff. split.
    + intros H. exists q. split; [reflexivity|]. apply Qnot_le_lt.
      intros Hle. apply Qle_bool_iff in Hle. congruence.
    + intros [q' [Hq Hlt]]. injection Hq as <-.
      destruct (Qle_bool best q) eqn:E; [|reflexivity].
      apply Qle_bool_iff in E. exfalso. eapply Qlt_not_le; eassumption.
  - split; [discriminate | intros [q [H _]]; discriminate].
Qed.

Lemma float_lt_false (q best : Q) :
  float_lt (Fin q) best = false -> (best <= q)%Q.
Proof.
  simpl. rewrite negb_false_iff. apply Qle_bool_iff.
Qed.

(** Opens one batch step: the modulo succeeded, then one of three ways. *)
Lemma batch_step_inv (args : TrainArgs) (loss_at : Z -> Q)
  (eval_at : nat -> npfloat) (st st' : LoopState) :
  batch_step args loss_at eval_at st = Ok st' ->
  gradient_accumulation_steps args <> 0%Z /\
  global_step st' = (global_step st + 1)%Z /\
  ((* no evaluation *)
   ((save_batch_steps args = 0%Z \/
     (global_step st + 2) mod save_batch_steps args <> 0)%Z /\
    best_val_loss st' = best_val_loss st /\
    evaluations st' = evaluations st /\
    events st' = events st ++ [Stepped (global_step st + 1)]) \/
   (* an evaluation that improves *)
   (exists q,
       save_batch_steps args <> 0%Z /\
       ((global_step st + 2) mod save_batch_steps args = 0)%Z /\
       eval_at (evaluations st) = Fin q /\ (q < best_val_loss st)%Q /\
       best_val_loss st' = q /\
       no_improve_epoch st' = 0%Z /\
       evaluations st' = S (evaluations st) /\
       events st' = events st ++ [Stepped (global_step st + 1)]
                    ++ [Evaluated (Fin q)]
                    ++ [SavedModel "best_val_loss_model"]) \/
   (* an evaluation that does not *)
   (save_batch_steps args <> 0%Z /\
    ((global_step st + 2) mod save_batch_steps args = 0)%Z /\
    float_lt (eval_at (evaluations st)) (best_val_loss st) = false /\
    best_val_loss st' = best_val_loss st /\
    no_improve_epoch st' = (no_improve_epoch st + 1)%Z /\
    evaluations st' = S (evaluations st) /\
    events st' = events st ++ [Stepped (global_step st + 1)]
                 ++ [Evaluated (eval_at (evaluations st))])).
Proof.
  unfold batch_step, py_mod. intros H.
  destruct (Z.eqb_spec (gradient_accumulation_steps args) 0) as [|Hacc];
    [discriminate|].
  cbn [bind] in H. split; [exact Hacc|].
  replace (global_step st + 1 + 1)%Z with (global_step st + 2)%Z in H by lia.
  destruct (Z.eqb_spec (save_batch_steps args) 0) as [Hs|Hs]; cbn [negb andb] in H.
  - injection H as <-. cbn. split; [reflexivity|]. left. auto.
  - destruct (Z.eqb_spec ((global_step st + 2) mod save_batch_steps args) 0)
      as [Hm|Hm].
    + destruct (float_lt (eval_at (evaluations st)) (best_val_loss st)) eqn:Elt.
      * injection H as <-. cbn. split; [reflexivity|]. right. left.
        apply float_lt_spec in Elt. destruct Elt as [q [Hq Hlt]].
        exists q. rewrite Hq. rewrite <- !app_assoc. repeat split; auto.
      * injection H as <-. cbn. split; [reflexivity|]. right. right.
        rewrite <- !app_assoc. repeat split; auto.
    + injection H as <-. cbn. split; [reflexivity|]. left. auto.
Qed.

Lemma batch_step_total (args : TrainArgs) (loss_at : Z -> Q)
  (eval_at : nat -> npfloat) (st : LoopState) :
  gradient_accumulation_steps args <> 0%Z ->
  exists st', batch_step args loss_at eval_at st = Ok st'.
Proof.
  intros Hacc. unfold batch_step, py_mod.
  destruct (Z.eqb_spec (gradient_accumulation_steps args) 0); [congruence|].
  cbn [bind].
  destruct (negb _ && _); [destruct (float_lt _ _)|]; eexists; reflexivity.
Qed.

Lemma batch_loop_total (n : nat) (args : TrainArgs) (loss_at : Z -> Q)
  (eval_at : nat -> npfloat) :
  gradient_accumulation_steps args <> 0%Z ->
  forall st, exists st', batch_loop n args loss_at eval_at st = Ok st'.
Proof.
  intros Hacc. induction n as [|n IH]; intros st; simpl.
  - now exists st.
  - destruct (batch_step_total args loss_at eval_at st Hacc) as [st1 H1].
    rewrite H1. cbn [bind]. apply IH.
Qed.

Lemma epoch_loop_total (args : TrainArgs) (n : nat) (loss_at : Z -> Q)
  (eval_at : nat -> npfloat) :
  gradient_accumulation_steps args <> 0%Z ->
  forall remaining epoch st,
    exists st', epoch_loop remaining epoch n args loss_at eval_at st = Ok st'.
Proof.
  intros Hacc. induction remaining as [|k IH]; intros epoch st; simpl.
  - now exists st.
  - destruct (batch_loop_total n args loss_at eval_at Hacc st) as [st1 H1].
    rewrite H1. cbn [bind]. apply IH.
Qed.

(** A property kept by every batch step and every epoch end holds when the
    loop is over. *)
Lemma training_loop_invariant (P : LoopState -> Prop) (args : TrainArgs)
  (n : nat) (loss_at : Z -> Q) (eval_at : nat -> npfloat) :
  P initial_state ->
  (forall st st', P st -> batch_step args loss_at eval_at st = Ok st' -> P st') ->
  (forall st epoch, P st -> P (epoch_end args eval_at epoch st)) ->
  forall st, training_loop args n loss_at eval_at = Ok st -> P st.
Proof.
  intros Hinit Hstep Hend.
  assert (Hbatches : forall m st st',
             P st -> batch_loop m args loss_at eval_at st = Ok st' -> P st').
  { induction m as [|m IH]; intros st st' HP H; simpl in H.
    - now injection H as <-.
    - destruct (batch_step args loss_at eval_at st) as [st1|e] eqn:E;
        [|discriminate].
      cbn [bind] in H. eapply IH; [|exact H]. eapply Hstep; eassumption. }
  assert (Hepochs : forall k epoch st st',
             P st -> epoch_loop k epoch n args loss_at eval_at st = Ok st' -> P st').
  { induction k as [|k IH]; intros epoch st st' HP H; simpl in H.
    - now injection H as <-.
    - destruct (batch_loop n args loss_at eval_at st) as [st1|e] eqn:E;
        [|discriminate].
      cbn [bind] in H. eapply IH; [|exact H]. apply Hend.
      eapply Hbatches; eassumption. }
  intros st H. eapply Hepochs; [exact Hinit | exact H].
Qed.

Lemma epoch_name_not_best (epoch : nat) :
  SavedModel (epoch_name epoch) <> SavedModel "best_val_loss_model".
Proof. unfold epoch_name. simpl. discriminate. Qed.

Lemma epoch_end_inv (args : TrainArgs) (eval_at : nat -> npfloat)
  (epoch : nat) (st : LoopState) :
  global_step (epoch_end args eval_at epoch st) = global_step st /\
  best_val_loss (epoch_end args eval_at epoch st) = best_val_loss st /\
  evaluated (events (epoch_end args eval_at epoch st)) = evaluated (events st) /\
  (In (SavedModel "best_val_loss_model")
      (events (epoch_end args eval_at epoch st))
   <-> In (SavedModel "best_val_loss_model") (events st)).
Proof.
  pose proof (epoch_name_not_best epoch) as Hname.
  unfold epoch_end, add_events.
  destruct (save_per_epoch args =? 1)%Z;
    destruct (Z.of_nat epoch =? num_train_epochs args - 1)%Z; cbn;
    rewrite ?evaluated_app, ?in_app_iff; cbn; rewrite ?app_nil_r;
    repeat split; try reflexivity; try tauto;
    intros H; repeat (destruct H as [H|H]; try tauto; try congruence).
Qed.

Lemma best_so_far_kept (args : TrainArgs) (n : nat)
  (loss_at : Z -> Q) (eval_at : nat -> npfloat) (st : LoopState) :
  training_loop args n loss_at eval_at = Ok st -> best_so_far st.
Proof.
  apply (training_loop_invariant best_so_far args n loss_at eval_at).
  - unfold best_so_far. cbn. repeat split; try tauto; try (now left).
    + apply Qle_refl.
    + intros H. exfalso. eapply Qlt_irrefl. exact H.
  - clear st. intros st st' [Hle [Hmin [Hone Hsaved]]] Hstep.
    unfold best_so_far.
    apply batch_step_inv in Hstep.
    destruct Hstep as [_ [_ [Hno | [[q Himp] | Hnot]]]].
    + destruct Hno as [_ [Hb [_ Hev]]]. rewrite Hb, Hev, evaluated_app.
      cbn [evaluated]. rewrite app_nil_r.
      repeat split; try assumption.
      * intros H. apply Hsaved. apply in_app_or in H.
        destruct H as [H|[H|[]]]; [assumption | discriminate].
      * intros H. apply in_or_app. left. now apply Hsaved.
    + destruct Himp as [_ [_ [_ [Hlt [Hb [_ [_ Hev]]]]]]].
      rewrite Hb, Hev, !evaluated_app. cbn [evaluated app].
      split; [lra | split; [|split; [|split]]].
      * intros q' Hin. apply in_app_or in Hin.
        destruct Hin as [Hin|[Hin|[]]].
        -- apply Hmin in Hin. lra.
        -- injection Hin as <-. apply Qle_refl.
      * right. apply in_or_app. right. now left.
      * intros _. lra.
      * intros _. apply in_or_app. right. right. right. now left.
    + destruct Hnot as [_ [_ [Hf [Hb [_ [_ Hev]]]]]].
      rewrite Hb, Hev, !evaluated_app. cbn [evaluated app].
      split; [assumption | split; [|split; [|split]]].
      * intros q' Hin. apply in_app_or in Hin.
        destruct Hin as [Hin|[Hin|[]]]; [now apply Hmin|].
        rewrite Hin in Hf. now apply float_lt_false.
      * destruct Hone as [H|H]; [now left | right].
        apply in_or_app. now left.
      * intros H. apply Hsaved. apply in_app_or in H.
        destruct H as [H|[H|[H|[]]]]; [assumption | discriminate | discriminate].
      * intros H. apply in_or_app. left. now apply Hsaved.
  - clear st. intros st epoch [Hle [Hmin [Hone Hsaved]]].
    unfold best_so_far.
    destruct (epoch_end_inv args eval_at epoch st) as [_ [Hb [Hev Hs]]].
    rewrite Hb, Hev, Hs. repeat split; try assumption; apply Hsaved.
Qed.

(** X24: with a non-zero accumulation count the loop runs to its end, and
    then [best_val_loss] is the least of 1000 and the finite values returned
    by the evaluations made inside the batch loop: it is below or equal to
    each, and it is 1000 or one of them.  The best checkpoint has been
    written exactly when it is below 1000. *)
Theorem best_val_loss_is_running_minimum (args : TrainArgs) (n : nat)
  (loss_at : Z -> Q) (eval_at : nat -> npfloat)
  (Hacc : gradient_accumulation_steps args <> 0%Z) :
  exists st,
    training_loop args n loss_at eval_at = Ok st /\
    (best_val_loss st <= 1000)%Q /\
    (forall q, In (Fin q) (evaluated (events st)) -> (best_val_loss st <= q)%Q) /\
    (best_val_loss st = 1000%Q \/
     In (Fin (best_val_loss st)) (evaluated (events st))) /\
    (In (SavedModel "best_val_loss_model") (events st)
     <-> (best_val_loss st < 1000)%Q).
Proof.
  destruct (epoch_loop_total args n loss_at eval_at Hacc
              (Z.to_nat (num_train_epochs args)) 0 initial_state) as [st Hst].
  exists st. split; [exact Hst|].
  exact (best_so_far_kept args n loss_at eval_at st Hst).
Qed.

(** Two epochs of two batches, evaluating after every batch: the values
    -1/2, -3/4, nan and -3/4 leave -3/4 as the best. *)
Lemma best_val_loss_is_running_minimum_witness :
  exists st,
    training_loop {| num_train_epochs := 2; gradient_accumulation_steps := 1;
                     save_batch_steps := 1; save_per_epoch := 0 |}
                  2 (fun _ => 1%Q)
                  (fun i => match i with
                            | 0 => Fin (- (1 # 2))
                            | 2 => NaN
                            | _ => Fin (- (3 # 4))
                            end) = Ok st /\
    (best_val_loss st == - (3 # 4))%Q.
Proof.
  destruct (best_val_loss_is_running_minimum
              {| num_train_epochs := 2; gradient_accumulation_steps := 1;
                 save_batch_steps := 1; save_per_epoch := 0 |}
              2 (fun _ => 1%Q)
              (fun i => match i with
                        | 0 => Fin (- (1 # 2))
                        | 2 => NaN
                        | _ => Fin (- (3 # 4))
                        end))
    as [st [Hst _]].
  - discriminate.
  - exists st. split; [exact Hst|].
    vm_compute in Hst. injection Hst as <-. reflexivity.
Defined.

Lemma div_next (G s : Z) :
  (0 <= G)%Z -> (0 < s)%Z ->
  ((G + 1) / s = G / s + (if ((G + 1) mod s =? 0)%Z then 1 else 0))%Z.
Proof.
  intros HG Hs.
  pose proof (Z.div_mod G s ltac:(lia)) as Hdm.
  pose proof (Z.mod_pos_bound G s Hs) as Hr.
  destruct (Z.eq_dec (G mod s + 1) s) as [Hfull|Hpart].
  - assert (Hm : ((G + 1) mod s = 0)%Z).
    { symmetry. apply (Z.mod_unique (G + 1) s (G / s + 1) 0); [lia | nia]. }
    rewrite Hm. cbn. symmetry.
    apply (Z.div_unique (G + 1) s (G / s + 1) 0); [lia | nia].
  - assert (Hm : ((G + 1) mod s = G mod s + 1)%Z).
    { symmetry. apply (Z.mod_unique (G + 1) s (G / s) (G mod s + 1)); [lia | nia]. }
    rewrite Hm. destruct (Z.eqb_spec (G mod s + 1) 0); [lia|].
    rewrite Z.add_0_r. symmetry.
    apply (Z.div_unique (G + 1) s (G / s) (G mod s + 1)); [lia | nia].
Qed.

Lemma batch_loop_global_step (args : TrainArgs) (loss_at : Z -> Q)
  (eval_at : nat -> npfloat) (m : nat) :
  forall st st',
    batch_loop m args loss_at eval_at st = Ok st' ->
    global_step st' = (global_step st + Z.of_nat m)%Z.
Proof.
  induction m as [|m IH]; intros st st' H; simpl in H.
  - injection H as <-. lia.
  - destruct (batch_step args loss_at eval_at st) as [st1|e] eqn:E; [|discriminate].
    cbn [bind] in H. apply IH in H. apply batch_step_inv in E.
    destruct E as [_ [Hg _]]. lia.
Qed.

Lemma epoch_loop_global_step (args : TrainArgs) (loss_at : Z -> Q)
  (eval_at : nat -> npfloat) (n : nat) (k : nat) :
  forall epoch st st',
    epoch_loop k epoch n args loss_at eval_at st = Ok st' ->
    global_step st' = (global_step st + Z.of_nat n * Z.of_nat k)%Z.
Proof.
  induction k as [|k IH]; intros epoch st st' H; simpl in H.
  - injection H as <-. lia.
  - destruct (batch_loop n args loss_at eval_at st) as [st1|e] eqn:E; [|discriminate].
    cbn [bind] in H. apply IH in H. apply batch_loop_global_step in E.
    destruct (epoch_end_inv args eval_at epoch st1) as [Hg _]. lia.
Qed.

Lemma evaluation_count_kept (args : TrainArgs) (n : nat)
  (loss_at : Z -> Q) (eval_at : nat -> npfloat) (st : LoopState) :
  (0 <= save_batch_steps args)%Z ->
  training_loop args n loss_at eval_at = Ok st ->
  (0 <= global_step st + 1)%Z /\
  length (evaluated (events st))
  = Z.to_nat ((global_step st + 1) / save_batch_steps args).
Proof.
  intros Hs.
  apply (training_loop_invariant
           (fun st =>
              (0 <= global_step st + 1)%Z /\
              length (evaluated (events st))
              = Z.to_nat ((global_step st + 1) / save_batch_steps args))
           args n loss_at eval_at).
  - cbn. split; [lia | reflexivity].
  - clear st. intros st st' [Hg Hlen] Hstep.
    apply batch_step_inv in Hstep. destruct Hstep as [_ [Hg' Hcases]].
    rewrite Hg'. split; [lia|].
    set (G := (global_step st + 1)%Z) in *.
    replace (global_step st + 2)%Z with (G + 1)%Z in Hcases by (unfold G; lia).
    destruct (Z.eq_dec (save_batch_steps args) 0) as [Hz|Hnz].
    + rewrite Hz in *. rewrite Z.div_0_r in *.
      destruct Hcases as [[_ [_ [_ Hev]]] | [[q [Hne _]] | [Hne _]]];
        try congruence.
      rewrite Hev, evaluated_app. cbn [evaluated]. rewrite app_nil_r. exact Hlen.
    + pose proof (div_next G (save_batch_steps args) Hg ltac:(lia)) as Hdiv.
      pose proof (Z.div_pos G (save_batch_steps args) Hg ltac:(lia)) as Hpos.
      destruct Hcases as [[Hno [_ [_ Hev]]] | [[q Himp] | Hnot]].
      * destruct Hno as [Hno|Hno]; [congruence|].
        destruct (Z.eqb_spec ((G + 1) mod save_batch_steps args) 0); [congruence|].
        rewrite Hev, evaluated_app. cbn [evaluated]. rewrite app_nil_r.
        rewrite Hlen. f_equal. lia.
      * destruct Himp as [_ [Hm [_ [_ [_ [_ [_ Hev]]]]]]].
        rewrite Hm in Hdiv. cbn in Hdiv.
        rewrite Hev, !evaluated_app. cbn [evaluated app].
        rewrite length_app, Hlen. cbn [length]. lia.
      * destruct Hnot as [_ [Hm [_ [_ [_ [_ Hev]]]]]].
        rewrite Hm in Hdiv. cbn in Hdiv.
        rewrite Hev, !evaluated_app. cbn [evaluated app].
        rewrite length_app, Hlen. cbn [length]. lia.
  - clear st. intros st epoch [Hg Hlen].
    destruct (epoch_end_inv args eval_at epoch st) as [Hg' [_ [Hev _]]].
    rewrite Hg', Hev. split; assumption.
Qed.

(** X25: how often the loop evaluates.  With [n] batches per epoch, [E]
    epochs and an evaluation every [s >= 0] steps, the loop makes [n * E]
    steps and evaluates inside the batch loop [(n * E) / s] times, rounded
    down, and never when [s] is 0.  When it makes fewer than [s] steps (or
    [s] is 0) the best value stays 1000 and the best checkpoint is never
    written. *)
Theorem evaluation_schedule (args : TrainArgs) (n : nat)
  (loss_at : Z -> Q) (eval_at : nat -> npfloat)
  (Hacc : gradient_accumulation_steps args <> 0%Z)
  (Hs : (0 <= save_batch_steps args)%Z) :
  exists st,
    training_loop args n loss_at eval_at = Ok st /\
    global_step st
    = (Z.of_nat n * Z.max 0 (num_train_epochs args) - 1)%Z /\
    (save_batch_steps args = 0%Z -> evaluated (events st) = []) /\
    ((0 < save_batch_steps args)%Z ->
     Z.of_nat (length (evaluated (events st)))
     = (Z.of_nat n * Z.max 0 (num_train_epochs args) / save_batch_steps args)%Z) /\
    ((Z.of_nat n * Z.max 0 (num_train_epochs args) < save_batch_steps args)%Z
     \/ save_batch_steps args = 0%Z ->
     best_val_loss st = 1000%Q /\
     ~ In (SavedModel "best_val_loss_model") (events st)).
Proof.
  destruct (epoch_loop_total args n loss_at eval_at Hacc
              (Z.to_nat (num_train_epochs args)) 0 initial_state) as [st Hst].
  exists st. split; [exact Hst|].
  pose proof (epoch_loop_global_step _ _ _ _ _ _ _ _ Hst) as Hg.
  cbn [global_step initial_state] in Hg.
  assert (Hsteps : global_step st
                   = (Z.of_nat n * Z.max 0 (num_train_epochs args) - 1)%Z).
  { rewrite Hg.
    replace (Z.of_nat (Z.to_nat (num_train_epochs args)))
      with (Z.max 0 (num_train_epochs args)) by lia.
    lia. }
  destruct (evaluation_count_kept args n loss_at eval_at st Hs Hst) as [Hpos Hlen].
  assert (HN : (global_step st + 1
                = Z.of_nat n * Z.max 0 (num_train_epochs args))%Z) by lia.
  rewrite HN in Hlen.
  assert (Hzero : save_batch_steps args = 0%Z -> evaluated (events st) = []).
  { intros Hz. rewrite Hz, Z.div_0_r in Hlen.
    destruct (evaluated (events st)); [reflexivity | discriminate]. }
  assert (Hcount : (0 < save_batch_steps args)%Z ->
                   Z.of_nat (length (evaluated (events st)))
                   = (Z.of_nat n * Z.max 0 (num_train_epochs args)
                      / save_batch_steps args)%Z).
  { intros Hp. rewrite Hlen, Z2Nat.id; [reflexivity|].
    apply Z.div_pos; lia. }
  split; [exact Hsteps | split; [exact Hzero | split; [exact Hcount|]]].
  intros Hfew.
  assert (Hnone : evaluated (events st) = []).
  { destruct Hfew as [Hlt|Hz]; [|now apply Hzero].
    destruct (Z.eq_dec (save_batch_steps args) 0) as [Hz|Hnz]; [now apply Hzero|].
    rewrite Z.div_small in Hlen by lia.
    destruct (evaluated (events st)); [reflexivity | discriminate]. }
  destruct (best_so_far_kept args n loss_at eval_at st Hst)
    as [_ [_ [Hone Hsaved]]].
  rewrite Hnone in Hone. destruct Hone as [Hb|[]].
  split; [exact Hb|]. intros Hin. apply Hsaved in Hin. rewrite Hb in Hin.
  eapply Qlt_irrefl. exact Hin.
Qed.

(** Three epochs of five batches, evaluating every four steps: three
    evaluations in fifteen steps. *)
Lemma evaluation_schedule_witness :
  exists st,
    training_loop {| num_train_epochs := 3; gradient_accumulation_steps := 2;
                     save_batch_steps := 4; save_per_epoch := -1 |}
                  5 (fun _ => 1%Q) (fun _ => Fin (- (1 # 2))) = Ok st /\
    global_step st = 14%Z /\
    length (evaluated (events st)) = 3.
Proof.
  destruct (evaluation_schedule
              {| num_train_epochs := 3; gradient_accumulation_steps := 2;
                 save_batch_steps := 4; save_per_epoch := -1 |}
              5 (fun _ => 1%Q) (fun _ => Fin (- (1 # 2))))
    as [st [Hst [Hg [_ [Hcount _]]]]].
  - discriminate.
  - discriminate.
  - exists st. split; [exact Hst | split; [exact Hg|]].
    apply Nat2Z.inj. rewrite Hcount; reflexivity.
Defined.

Lemma batch_loop_no_last (args : TrainArgs) (loss_at : Z -> Q)
  (eval_at : nat -> npfloat) (m : nat) :
  forall st st',
    (forall v, ~ In (EvaluatedLast v) (events st)) ->
    batch_loop m args loss_at eval_at st = Ok st' ->
    forall v, ~ In (EvaluatedLast v) (events st').
Proof.
  induction m as [|m IH]; intros st st' Hno H; simpl in H.
  - now injection H as <-.
  - destruct (batch_step args loss_at eval_at st) as [st1|e] eqn:E; [|discriminate].
    cbn [bind] in H. apply (IH st1 st'); [|exact H].
    intros v Hin. apply batch_step_inv in E.
    destruct E as [_ [_ [[_ [_ [_ Hev]]] | [[q Himp] | Hnot]]]].
    + rewrite Hev in Hin. apply in_app_or in Hin.
      destruct Hin as [Hin|[Hin|[]]]; [now apply (Hno v) | discriminate].
    + destruct Himp as [_ [_ [_ [_ [_ [_ [_ Hev]]]]]]].
      rewrite Hev in Hin. apply in_app_or in Hin.
      destruct Hin as [Hin|[Hin|[Hin|[Hin|[]]]]];
        [now apply (Hno v) | discriminate | discriminate | discriminate].
    + destruct Hnot as [_ [_ [_ [_ [_ [_ Hev]]]]]].
      rewrite Hev in Hin. apply in_app_or in Hin.
      destruct Hin as [Hin|[Hin|[Hin|[]]]];
        [now apply (Hno v) | discriminate | discriminate].
Qed.

Lemma epoch_loop_last (args : TrainArgs) (loss_at : Z -> Q)
  (eval_at : nat -> npfloat) (n : nat)
  (Hacc : gradient_accumulation_steps args <> 0%Z) :
  forall k epoch st,
    Z.of_nat (epoch + S k) = num_train_epochs args ->
    (forall v, ~ In (EvaluatedLast v) (events st)) ->
    exists st' pre v,
      epoch_loop (S k) epoch n args loss_at eval_at st = Ok st' /\
      events st' = pre ++ [EvaluatedLast v; SavedModel (epoch_name (epoch + k))] /\
      (forall v', ~ In (EvaluatedLast v') pre) /\
      (save_per_epoch args = 1%Z ->
       exists pre', pre = pre' ++ [SavedModel (epoch_name (epoch + k))]).
Proof.
  induction k as [|k IH]; intros epoch st HE Hno.
  - destruct (batch_loop_total n args loss_at eval_at Hacc st) as [st1 H1].
    cbn [epoch_loop]. rewrite H1. cbn [bind].
    pose proof (batch_loop_no_last _ _ _ _ _ _ Hno H1) as Hno1.
    rewrite Nat.add_0_r. unfold epoch_end.
    destruct (Z.eqb_spec (Z.of_nat epoch) (num_train_epochs args - 1)); [|lia].
    destruct (Z.eqb_spec (save_per_epoch args) 1) as [Hp|Hp].
    + eexists. exists (events st1 ++ [SavedModel (epoch_name epoch)]).
      eexists. split; [reflexivity|]. cbn. split; [reflexivity | split].
      * intros v' Hin. apply in_app_or in Hin.
        destruct Hin as [Hin|[Hin|[]]]; [now apply (Hno1 v') | discriminate].
      * intros _. now exists (events st1).
    + eexists. exists (events st1). eexists.
      split; [reflexivity|]. cbn. split; [reflexivity | split].
      * exact Hno1.
      * intros Hp'. congruence.
  - destruct (batch_loop_total n args loss_at eval_at Hacc st) as [st1 H1].
    pose proof (batch_loop_no_last _ _ _ _ _ _ Hno H1) as Hno1.
    destruct (IH (S epoch) (epoch_end args eval_at epoch st1)) as
      [st' [pre [v [Hrun Hrest]]]].
    + lia.
    + unfold epoch_end, add_events.
      destruct (Z.eqb_spec (Z.of_nat epoch) (num_train_epochs args - 1)); [lia|].
      destruct (save_per_epoch args =? 1)%Z; cbn; [|exact Hno1].
      intros v' Hin. apply in_app_or in Hin.
      destruct Hin as [Hin|[Hin|[]]]; [now apply (Hno1 v') | discriminate].
    + exists st', pre, v.
      replace (epoch + S k) with (S epoch + k) by lia.
      split; [|exact Hrest].
      change (epoch_loop (S (S k)) epoch n args loss_at eval_at st)
        with (st0 <- batch_loop n args loss_at eval_at st ;;
              epoch_loop (S k) (S epoch) n args loss_at eval_at
                (epoch_end args eval_at epoch st0)).
      rewrite H1. exact Hrun.
Qed.

(** X26: with at least one epoch, the run ends with one more evaluation
    followed by the checkpoint of the last epoch, [epoch_{E-1}_model]; that
    evaluation is the only one made outside the batch loop, and with
    [save_per_epoch = 1] the same checkpoint has been written just before
    it as well. *)
Theorem last_epoch_checkpoint (args : TrainArgs) (n : nat)
  (loss_at : Z -> Q) (eval_at : nat -> npfloat)
  (Hacc : gradient_accumulation_steps args <> 0%Z)
  (HE : (1 <= num_train_epochs args)%Z) :
  exists st pre v,
    training_loop args n loss_at eval_at = Ok st /\
    events st
    = pre ++ [EvaluatedLast v;
              SavedModel (epoch_name (Z.to_nat (num_train_epochs args - 1)))] /\
    (forall v', ~ In (EvaluatedLast v') pre) /\
    (save_per_epoch args = 1%Z ->
     exists pre',
       pre = pre' ++ [SavedModel
                        (epoch_name (Z.to_nat (num_train_epochs args - 1)))]).
Proof.
  unfold training_loop.
  destruct (Z.to_nat (num_train_epochs args)) as [|k] eqn:Ek; [lia|].
  destruct (epoch_loop_last args loss_at eval_at n Hacc k 0 initial_state)
    as [st [pre [v [Hrun Hrest]]]].
  - lia.
  - intros v' [].
  - exists st, pre, v. split; [exact Hrun|].
    replace (Z.to_nat (num_train_epochs args - 1)) with (0 + k) by lia.
    exact Hrest.
Qed.

Lemma last_epoch_checkpoint_witness :
  exists st pre v,
    training_loop {| num_train_epochs := 2; gradient_accumulation_steps := 1;
                     save_batch_steps := 0; save_per_epoch := 1 |}
                  1 (fun _ => 1%Q) (fun _ => NaN) = Ok st /\
    events st = pre ++ [EvaluatedLast v; SavedModel "epoch_1_model"].
Proof.
  destruct (last_epoch_checkpoint
              {| num_train_epochs := 2; gradient_accumulation_steps := 1;
                 save_batch_steps := 0; save_per_epoch := 1 |}
              1 (fun _ => 1%Q) (fun _ => NaN))
    as [st [pre [v [Hst [Hev _]]]]].
  - discriminate.
  - vm_compute. discriminate.
  - exists st, pre, v. split; [exact Hst | exact Hev].
Defined.

Lemma evaluated_are_calls (args : TrainArgs) (n : nat)
  (loss_at : Z -> Q) (eval_at : nat -> npfloat) (st : LoopState) :
  training_loop args n loss_at eval_at = Ok st ->
  forall v, In v (evaluated (events st)) -> exists i, v = eval_at i.
Proof.
  apply (training_loop_invariant
           (fun st => forall v, In v (evaluated (events st))
                                -> exists i, v = eval_at i)
           args n loss_at eval_at).
  - intros v [].
  - clear st. intros st st' Hall Hstep v Hin.
    apply batch_step_inv in Hstep.
    destruct Hstep as [_ [_ [[_ [_ [_ Hev]]] | [[q Himp] | Hnot]]]].
    + rewrite Hev, evaluated_app in Hin. cbn [evaluated] in Hin.
      rewrite app_nil_r in Hin. now apply Hall.
    + destruct Himp as [_ [_ [Hq [_ [_ [_ [_ Hev]]]]]]].
      rewrite Hev, !evaluated_app in Hin. cbn [evaluated app] in Hin.
      apply in_app_or in Hin. destruct Hin as [Hin|[<-|[]]]; [now apply Hall|].
      eexists. symmetry. exact Hq.
    + destruct Hnot as [_ [_ [_ [_ [_ [_ Hev]]]]]].
      rewrite Hev, !evaluated_app in Hin. cbn [evaluated app] in Hin.
      apply in_app_or in Hin. destruct Hin as [Hin|[<-|[]]]; [now apply Hall|].
      eexists. reflexivity.
  - clear st. intros st epoch Hall v Hin.
    destruct (epoch_end_inv args eval_at epoch st) as [_ [_ [Hev _]]].
    rewrite Hev in Hin. now apply Hall.
Qed.

(** X27: the evaluator and the loop together.  When every value handed to
    the loop is what [evaluation_dist] returns on well-formed, non-empty
    gathered arrays, and the loop makes at least [save_batch_steps > 0]
    steps, then the best checkpoint is written and the final best value is
    at most 0: the initial 1000 never survives a real evaluation. *)
Theorem first_evaluation_saves_best (args : TrainArgs) (n : nat)
  (loss_at : Z -> Q) (eval_at : nat -> npfloat)
  (Hacc : gradient_accumulation_steps args <> 0%Z)
  (Hs : (0 < save_batch_steps args)%Z)
  (Hsteps : (save_batch_steps args
             <= Z.of_nat n * Z.max 0 (num_train_epochs args))%Z)
  (Heval : forall i, exists predicts labels data_ids,
        length data_ids = length predicts /\
        length predicts = length labels /\
        predicts <> [] /\
        evaluation_dist predicts labels data_ids = Ok (eval_at i)) :
  exists st,
    training_loop args n loss_at eval_at = Ok st /\
    In (SavedModel "best_val_loss_model") (events st) /\
    (best_val_loss st <= 0)%Q.
Proof.
  destruct (epoch_loop_total args n loss_at eval_at Hacc
              (Z.to_nat (num_train_epochs args)) 0 initial_state) as [st Hst].
  exists st. split; [exact Hst|].
  pose proof (epoch_loop_global_step _ _ _ _ _ _ _ _ Hst) as Hg.
  cbn [global_step initial_state] in Hg.
  destruct (evaluation_count_kept args n loss_at eval_at st ltac:(lia) Hst)
    as [_ Hlen].
  replace (global_step st + 1)%Z
    with (Z.of_nat n * Z.max 0 (num_train_epochs args))%Z in Hlen by lia.
  assert (Hdiv : (1 <= Z.of_nat n * Z.max 0 (num_train_epochs args)
                       / save_batch_steps args)%Z).
  { apply Z.div_le_lower_bound; lia. }
  destruct (evaluated (events st)) as [|v vs] eqn:Ev; [simpl in Hlen; lia|].
  destruct (evaluated_are_calls args n loss_at eval_at st Hst v) as [i Hi].
  { rewrite Ev. now left. }
  destruct (Heval i) as [predicts [labels [data_ids [H1 [H2 [Hne Hval]]]]]].
  destruct (evaluation_dist_range predicts labels data_ids H1 H2 Hne)
    as [m [Hm [_ Hm0]]].
  assert (Hv : v = Fin m) by congruence.
  destruct (best_so_far_kept args n loss_at eval_at st Hst)
    as [_ [Hmin [_ Hsaved]]].
  assert (Hbest : (best_val_loss st <= m)%Q).
  { apply Hmin. rewrite Ev, Hv. now left. }
  split; [apply Hsaved; lra | lra].
Qed.

(** A loop fed with the value of one real evaluation. *)
Lemma first_evaluation_saves_best_witness :
  exists st,
    training_loop {| num_train_epochs := 1; gradient_accumulation_steps := 1;
                     save_batch_steps := 2; save_per_epoch := 0 |}
                  2 (fun _ => 1%Q)
                  (fun _ => match evaluation_dist [[1 # 2; 1 # 3]]%Q [1]%Z [7]%Z with
                            | Ok v => v
                            | Raise _ => NaN
                            end) = Ok st /\
    In (SavedModel "best_val_loss_model") (events st) /\
    (best_val_loss st <= 0)%Q.
Proof.
  apply (first_evaluation_saves_best
           {| num_train_epochs := 1; gradient_accumulation_steps := 1;
              save_batch_steps := 2; save_per_epoch := 0 |}
           2 (fun _ => 1%Q)
           (fun _ => match evaluation_dist [[1 # 2; 1 # 3]]%Q [1]%Z [7]%Z with
                     | Ok v => v
                     | Raise _ => NaN
                     end)).
  - discriminate.
  - reflexivity.
  - vm_compute. discriminate.
  - intros _. exists [[1 # 2; 1 # 3]]%Q, [1]%Z, [7]%Z.
    repeat split; try reflexivity. discriminate.
Defined.

(** ** The text handed to the tokenizer *)

Lemma replace_scan_absent (old new s : string) :
  str_in old s = false -> replace_scan old new 0 s = s.
Proof.
  induction s as [|c s IH]; intros Habs; [reflexivity|].
  cbn [str_in] in Habs. apply orb_false_iff in Habs. destruct Habs as [Hp Hs].
  cbn [replace_scan]. rewrite Hp. f_equal. now apply IH.
Qed.

(** X28: when the tokenizer's end-of-sequence string does not occur in the
    rendered prompt, the replacement leaves the prompt as it is: the token
    sequence is the tokenization of the rendered text itself, closed by the
    end-of-sequence id. *)
Theorem eos_absent_text_unchanged (tokenizer : Tokenizer) (is_test : bool)
  (data : Row) (g : rng)
  (Habsent : str_in (eos_token tokenizer)
               (rendered_text data (fst (presented_options is_test data g)))
             = false) :
  str_replace (rendered_text data (fst (presented_options is_test data g)))
              (eos_token tokenizer) "<end>"
  = rendered_text data (fst (presented_options is_test data g)) /\
  exists label,
    fst (create_example tokenizer is_test data g)
    = Ok (tokenize tokenizer
            (rendered_text data (fst (presented_options is_test data g)))
          ++ [eos_token_id tokenizer],
          label, data_id data).
Proof.
  assert (Hrep : str_replace
                   (rendered_text data (fst (presented_options is_test data g)))
                   (eos_token tokenizer) "<end>"
                 = rendered_text data (fst (presented_options is_test data g))).
  { unfold str_replace. destruct (eos_token tokenizer) as [|c old] eqn:E.
    - destruct (rendered_text data (fst (presented_options is_test data g)));
        discriminate.
    - now apply replace_scan_absent. }
  split; [exact Hrep|].
  rewrite create_example_unfold. cbn [fst].
  rewrite (label_and_text_spec is_test data _
             (presented_fits_alphabet is_test data g)).
  destruct (last_index_of (answer_text data)
              (fst (presented_options is_test data g))) as [i|] eqn:E.
  - eexists. cbn [bind fst snd]. rewrite Hrep. reflexivity.
  - destruct is_test.
    + eexists. cbn [bind fst snd]. rewrite Hrep. reflexivity.
    + apply last_index_of_None in E. exfalso. apply E.
      apply training_answer_presented.
Qed.

Lemma eos_absent_text_unchanged_witness :
  exists label,
    fst (create_example char_tokenizer true
           {| prompt := "Q"; answer_text := "x";
              or_recall_texts := ["y"; "x"]%string; data_id := 7 |} [])
    = Ok (tokenize char_tokenizer
            (rendered_text
               {| prompt := "Q"; answer_text := "x";
                  or_recall_texts := ["y"; "x"]%string; data_id := 7 |}
               ["y"; "x"]%string)
          ++ [0%Z],
          label, 7%Z).
Proof.
  apply (proj2 (eos_absent_text_unchanged char_tokenizer true
                  {| prompt := "Q"; answer_text := "x";
                     or_recall_texts := ["y"; "x"]%string; data_id := 7 |} []
                  eq_refl)).
Defined.

(** ** Distinct options *)

Lemma NoDup_firstn_keep {A : Type} (n : nat) (l : list A) :
  NoDup l -> NoDup (firstn n l).
Proof.
  revert n. induction l as [|a l IH]; intros [|n] Hnd; simpl; try constructor.
  - inversion Hnd as [|? ? Ha Hl]; subst. intros Hin. apply Ha.
    rewrite <- (firstn_skipn n l). apply in_or_app. now left.
  - inversion Hnd. now apply IH.
Qed.

(** X29: when the first 50 candidates of a row are pairwise distinct, so are
    the presented options, in training and at test time: no option is shown
    twice. *)
Theorem distinct_candidates_distinct_options (data : Row) (g : rng)
  (Hdistinct : NoDup (firstn 50 (or_recall_texts data))) :
  NoDup (fst (presented_options false data g)) /\
  NoDup (fst (presented_options true data g)).
Proof.
  split.
  - destruct (presented_options_training data g) as [shuffled [g1 [Hsh Hopts]]].
    pose proof (shuffle_perm (distractor_pool data) g) as Hp.
    rewrite Hsh in Hp. cbn [fst] in Hp.
    rewrite Hopts.
    apply (Permutation_NoDup (Permutation_sym (shuffle_perm _ g1))).
    assert (Hpool : NoDup shuffled).
    { apply (Permutation_NoDup (Permutation_sym Hp)).
      unfold distractor_pool. now apply NoDup_filter. }
    assert (Hout : ~ In (answer_text data) (firstn 24 shuffled)).
    { apply firstn_subset_not_In. intros Hin.
      apply (pool_excludes_answer data).
      eapply Permutation_in; eassumption. }
    apply NoDup_app.
    + now apply NoDup_firstn_keep.
    + repeat constructor. intros [].
    + intros x Hx [<-|[]]. tauto.
  - rewrite presented_options_test. cbn [fst].
    replace (firstn 25 (or_recall_texts data))
      with (firstn 25 (firstn 50 (or_recall_texts data)))
      by (rewrite firstn_firstn; reflexivity).
    now apply NoDup_firstn_keep.
Qed.

Lemma distinct_candidates_distinct_options_witness :
  NoDup (fst (presented_options false
                {| prompt := "Q"; answer_text := "c";
                   or_recall_texts := ["a"; "b"; "c"]%string; data_id := 1 |}
                [5; 3; 1])).
Proof.
  apply (proj1 (distinct_candidates_distinct_options
                  {| prompt := "Q"; answer_text := "c";
                     or_recall_texts := ["a"; "b"; "c"]%string; data_id := 1 |}
                  [5; 3; 1]
                  ltac:(repeat constructor; simpl; intuition discriminate))).
Defined.
